(** * QuantumPostProcessing: post-processing of a parameter sweep

    A shallow embedding of [route_storer.py], [graph_storer.py] and
    [post_processing.py], and the properties of the projection, the route
    renderer, the aggregation and the pivot.

    Conventions of the embedding.
    - A NumPy array and a Python list are a [list].
    - The numbers of the projection (latitudes, longitudes, kilometres) are
      real numbers [R]: the projection needs [PI] and [cos].  The numbers of a
      results table (sweep parameters, costs) are rationals [Q], compared
      with [Qcompare], so that the aggregation runs on concrete tables.
      Rounding of binary floating point and NaN cells are not modelled.
    - A Python [dict] is a [gmap].
    - A raised exception is the left injection of a sum; the driver returns
      the files written so far together with its result, so the files written
      before an exception are kept.
    - The calls into pandas, NumPy, seaborn and matplotlib are given the
      behaviour those libraries document; each such definition says so. *)

From Stdlib Require Import List ZArith QArith Qreduction Reals Lra Lia String Bool.
From Stdlib Require Import Sorting.Sorted.
From stdpp Require Import gmap.
Import ListNotations.

(** ** Exceptions and the effect of writing files *)

(** The exceptions the modelled calls raise.  [KeyError] is raised by a
    [dict] subscript whose key is absent, [IndexError] by a list subscript
    out of range, [ValueError_duplicate_entries] by [DataFrame.pivot]
    ("Index contains duplicate entries, cannot reshape"),
    [ValueError_empty_sequence] by [idxmin] on an empty group,
    [TypeError_contour_shape] by [plt.contourf] ("Input z must be at least a
    (2, 2) shaped array") and [KeyError_label] by [DataFrame.loc] on a label
    that is not in the index. *)
Inductive exn : Type :=
  | KeyError (key : Z)
  | IndexError (i : nat)
  | KeyError_label (label : nat)
  | ValueError_duplicate_entries
  | ValueError_empty_sequence
  | TypeError_contour_shape (rows cols : nat).

(** A computation that may raise. *)
Definition result (A : Type) : Type := (exn + A)%type.

Definition ret {A} (a : A) : result A := inr a.
Definition raise {A} (e : exn) : result A := inl e.
Definition bind {A B} (m : result A) (f : A -> result B) : result B :=
  match m with
  | inl e => inl e
  | inr a => f a
  end.

Declare Scope py_scope.
Delimit Scope py_scope with py.
Notation "'do' x <- m ; k" := (bind m (fun x => k))
  (at level 10, x name, m at level 100, k at level 200) : py_scope.

(** [for x in l: acc = f acc x], stopping at the first exception. *)
Fixpoint foldM {A B} (f : A -> B -> result A) (acc : A) (l : list B) : result A :=
  match l with
  | [] => ret acc
  | x :: l' => bind (f acc x) (fun acc' => foldM f acc' l')
  end.

(** [[f(x) for x in l]], stopping at the first exception. *)
Fixpoint mapM {A B} (f : A -> result B) (l : list A) : result (list B) :=
  match l with
  | [] => ret []
  | x :: l' => bind (f x) (fun y => bind (mapM f l') (fun ys => ret (y :: ys)))
  end.

(** [l[i]] on a Python list. *)
Definition subscript {A} (l : list A) (i : nat) : result A :=
  match nth_error l i with
  | Some a => ret a
  | None => raise (IndexError i)
  end.

(** ** Sorted distinct values

    pandas orders the groups of a [groupby] and the two axes of a [pivot] by
    ascending key, each key once.  [sort_unique] inserts the values one by one
    into a strictly ascending list; of several values that compare equal the
    first one met is kept. *)
Section SortUnique.
Context {A : Type}.
Variable cmp : A -> A -> comparison.

Fixpoint insert_unique (a : A) (l : list A) : list A :=
  match l with
  | [] => [a]
  | b :: l' =>
      match cmp a b with
      | Lt => a :: l
      | Eq => l
      | Gt => b :: insert_unique a l'
      end
  end.

Definition sort_unique (l : list A) : list A :=
  fold_left (fun acc a => insert_unique a acc) l [].

(** The strict order of [cmp]. *)
Definition cmp_lt (a b : A) : Prop := cmp a b = Lt.
End SortUnique.

(** * route_storer.py *)
Module route_storer.

(** Modelled from the spec: the module [pydantic_models] ([RouteInput] and
    its entries) is not among the sources.  The spec gives each entry of the
    locations file an [order_id] (an integer), a [lat] and a [lon] (floating
    point, in degrees).  The attribute [orders] of the validated [RouteInput]
    is a list of such entries; the embedding starts from that list, the file
    having been read and validated. *)
Record Order : Type := { order_id : Z; lat : R; lon : R }.

(** The inner dictionary [{"lat": ..., "lon": ...}] of [orders]. *)
Record LatLon : Type := { d_lat : R; d_lon : R }.

(** One [plt.annotate("", xy=..., xytext=..., arrowprops=...)]: an arrow
    drawn from [xytext] to [xy]; a point is (x, y). *)
Record Arrow : Type := { xytext : R * R; xy : R * R }.

(** The figure that [create_graph] saves: the path
    [data/<folder_name>/<file_name>.png], the two arrays given to
    [plt.scatter] and the arrows, in drawing order.  Title, axis labels and
    grid are constants of the source and are left out. *)
Record Figure (N : Type) : Type :=
  { fig_folder : string; fig_name : N;
    scatter_x : list R; scatter_y : list R;
    arrows : list Arrow }.
Arguments fig_folder {N}.
Arguments fig_name {N}.
Arguments scatter_x {N}.
Arguments scatter_y {N}.
Arguments arrows {N}.

Section Projection.
Local Open Scope R_scope.

(** [r = 6371  # Radius of Earth] *)
Definition r : R := 6371.

(** [centre_point_deg], "Hardcoded to approximate centre of Perth". *)
Definition centre_point_deg : R := -31.952258602714696.

(** [np.radians]: degrees times pi / 180. *)
Definition radians (deg : R) : R := deg * (PI / 180).

Definition __equi_rect_project (latitudes longitudes : list R)
  : list R * list R :=
  let center_latitude_radians := radians centre_point_deg in
  let longitudes_radians := map radians longitudes in
  let latitudes_radians := map radians latitudes in
  let longitudes := map (fun l => r * l * cos center_latitude_radians)
                        longitudes_radians in
  let latitudes := map (fun l => r * l) latitudes_radians in
  (latitudes, longitudes).
End Projection.

(** The body of [__reformat_locations] after the file has been loaded. *)
Definition __reformat_locations (locations : list Order)
  : list R * list R * gmap Z LatLon :=
  let lats := map lat locations in
  let longs := map lon locations in
  let '(lats, longs) := __equi_rect_project lats longs in
  let orders :=
    foldl (fun d order =>
             <[order_id order := {| d_lat := lat order; d_lon := lon order |}]> d)
          ∅ locations in
  (lats, longs, orders).

(** [orders_dict[k]] *)
Definition getitem (orders_dict : gmap Z LatLon) (k : Z) : result LatLon :=
  match orders_dict !! k with
  | Some v => ret v
  | None => raise (KeyError k)
  end.

(** The four lists that the first loop of [__add_lines] fills. *)
Record Ends : Type :=
  { start_longs : list R; start_lat : list R;
    end_longs : list R; end_lats : list R }.

Definition no_ends : Ends :=
  {| start_longs := []; start_lat := []; end_longs := []; end_lats := [] |}.

(** The body of the inner loop, for [start_id = route[i]] and
    [end_id = route[i + 1]]: four subscripts, four appends. *)
Definition add_edge (orders_dict : gmap Z LatLon) (acc : Ends)
    (start_id end_id : Z) : result Ends :=
  (do s1 <- getitem orders_dict start_id ;
   do s2 <- getitem orders_dict start_id ;
   do e1 <- getitem orders_dict end_id ;
   do e2 <- getitem orders_dict end_id ;
   ret {| start_longs := start_longs acc ++ [d_lon s1];
          start_lat := start_lat acc ++ [d_lat s2];
          end_longs := end_longs acc ++ [d_lon e1];
          end_lats := end_lats acc ++ [d_lat e2] |})%py.

(** [for i in range(len(route) - 1)]: the pairs (route[i], route[i + 1]),
    by recursion on the route. *)
Fixpoint add_route (orders_dict : gmap Z LatLon) (acc : Ends)
    (route : list Z) : result Ends :=
  match route with
  | start_id :: ((end_id :: _) as rest) =>
      (do acc' <- add_edge orders_dict acc start_id end_id ;
       add_route orders_dict acc' rest)%py
  | _ => ret acc
  end.

(** The second loop of [__add_lines]: the arrow of index [i]. *)
Definition annotate (start_lats start_longs end_lats end_longs : list R)
    (i : nat) : result Arrow :=
  (do ex <- subscript end_longs i ;
   do ey <- subscript end_lats i ;
   do sx <- subscript start_longs i ;
   do sy <- subscript start_lats i ;
   ret {| xytext := (sx, sy); xy := (ex, ey) |})%py.

(** [__add_lines] returns the arrows it draws. *)
Definition __add_lines (routes : list (list Z)) (orders_dict : gmap Z LatLon)
  : result (list Arrow) :=
  (do ends <- foldM (add_route orders_dict) no_ends routes ;
   let '(start_lats, start_longs) :=
     __equi_rect_project (start_lat ends) (start_longs ends) in
   let '(end_lats, end_longs) :=
     __equi_rect_project (end_lats ends) (end_longs ends) in
   mapM (annotate start_lats start_longs end_lats end_longs)
        (seq 0 (length start_lats)))%py.

(** [create_graph]: the figure saved, or the exception raised before
    [plt.savefig].  [locations] is the validated content of
    [locations_file]; [file_name] is kept abstract. *)
Definition create_graph {N} (locations : list Order) (route : list Z)
    (folder_name : string) (file_name : N) : result (Figure N) :=
  let route := [route] in
  let '(lats, longs, orders) := __reformat_locations locations in
  (do drawn <- __add_lines route orders ;
   ret {| fig_folder := folder_name; fig_name := file_name;
          scatter_x := longs; scatter_y := lats;
          arrows := drawn |})%py.

End route_storer.

(** * graph_storer.py *)
Module graph_storer.

(** The three columns of a data frame that a plotter is told to use, one
    triple per row and in row order: the column named by [index], the one
    named by [columns] and the one named by [values]. *)
Definition Long (V : Type) : Type := list (Q * Q * V).

(** The frame [DataFrame.pivot] returns: the row labels, the column labels
    and the cells, row by row; a cell without a row in the input is [None]
    (pandas fills it with NaN). *)
Record Grid (V : Type) : Type :=
  { g_index : list Q; g_columns : list Q; g_values : list (list (option V)) }.
Arguments g_index {V}.
Arguments g_columns {V}.
Arguments g_values {V}.

Definition at_cell {V} (i c : Q) (x : Q * Q * V) : bool :=
  Qeq_bool (fst (fst x)) i && Qeq_bool (snd (fst x)) c.

(** Some (index, column) pair occurs in two rows. *)
Fixpoint has_duplicate_entries {V} (df : Long V) : bool :=
  match df with
  | [] => false
  | x :: df' =>
      existsb (at_cell (fst (fst x)) (snd (fst x))) df'
      || has_duplicate_entries df'
  end.

Definition cell {V} (df : Long V) (i c : Q) : option V :=
  option_map snd (find (at_cell i c) df).

(** [df.pivot(index=index, columns=column, values=values)].  pandas
    documents: "Raises ValueError: When there are any index, columns
    combinations with multiple values"; otherwise the result has the distinct
    index values as rows and the distinct column values as columns, both
    ascending. *)
Definition pivot {V} (df : Long V) : result (Grid V) :=
  if has_duplicate_entries df then raise ValueError_duplicate_entries
  else
    let index := sort_unique Qcompare (map (fun x => fst (fst x)) df) in
    let columns := sort_unique Qcompare (map (fun x => snd (fst x)) df) in
    ret {| g_index := index; g_columns := columns;
           g_values := map (fun i => map (fun c => cell df i c) columns) index |}.

(** An image written by [plt.savefig]: its path and the grid it shows.  The
    colour map, the title and the axis labels are constants of the source and
    are left out. *)
Inductive Plot : Type :=
  | Heatmap (path : string) (g : Grid Q)
  | Contour (path : string) (g : Grid Q).

(** [os.path.join("data", name)] *)
Definition data_path (name : string) : string :=
  String.append "data/" name.

(** [save_heatmap]: the image written, or the exception of [pivot].  Drawing
    the grid with [sns.heatmap] is not given an exception of its own. *)
Definition save_heatmap (df : Long Q) (file_parts : string * string)
  : result Plot :=
  (do df <- pivot df ;
   ret (Heatmap
          (data_path (String.append (fst file_parts)
                        (String.append "_heatmap_" (snd file_parts))))
          df))%py.

(** [plt.contourf(x, y, z, levels=10, ...)]: matplotlib raises a TypeError,
    "Input z must be at least a (2, 2) shaped array", when [z] has fewer than
    two rows or fewer than two columns. *)
Definition contourf (z : Grid Q) : result unit :=
  let rows := length (g_index z) in
  let cols := length (g_columns z) in
  if (rows <? 2)%nat || (cols <? 2)%nat
  then raise (TypeError_contour_shape rows cols)
  else ret tt.

(** [save_contour_plot]: the image written, or the exception of [pivot] or of
    [plt.contourf]. *)
Definition save_contour_plot (df : Long Q) (file_parts : string * string)
  : result Plot :=
  (do df <- pivot df ;
   do contour <- contourf df ;
   ret (Contour
          (data_path (String.append (fst file_parts)
                        (String.append "_contours_" (snd file_parts))))
          df))%py.

End graph_storer.

(** * post_processing.py *)
Module post_processing.
Import graph_storer.
Local Open Scope Q_scope.

(** A row of the results table.  [route] is the list that
    [ast.literal_eval] decodes from the text of the column. *)
Record Row : Type :=
  { cost_constraint_ratio : Q; chain_strength : Q; trial : Z;
    relative_cost : Q; route : list Z }.

(** A data frame: the rows, each with its index label. *)
Definition DataFrame : Type := list (nat * Row).

(** [pd.read_csv] labels the rows 0, 1, 2, ... *)
Definition read_csv (rows : list Row) : DataFrame :=
  combine (seq 0 (length rows)) rows.

(** [reset_index(drop=True)] *)
Definition reset_index (df : DataFrame) : DataFrame :=
  read_csv (map snd df).

Definition Key : Type := (Q * Q)%type.

Definition key_of (x : nat * Row) : Key :=
  (cost_constraint_ratio (snd x), chain_strength (snd x)).

(** Keys are ordered as tuples. *)
Definition key_compare (a b : Key) : comparison :=
  match Qcompare (fst a) (fst b) with
  | Eq => Qcompare (snd a) (snd b)
  | c => c
  end.

Definition key_eqb (a b : Key) : bool :=
  match key_compare a b with
  | Eq => true
  | _ => false
  end.

(** [df.groupby(["cost_constraint_ratio", "chain_strength"])]: the keys that
    occur, ascending, each with its rows in the order of [df]. *)
Definition group_keys (df : DataFrame) : list Key :=
  sort_unique key_compare (map key_of df).

Definition get_group (df : DataFrame) (k : Key) : DataFrame :=
  List.filter (fun x => key_eqb (key_of x) k) df.

Definition groupby (df : DataFrame) : list (Key * DataFrame) :=
  map (fun k => (k, get_group df k)) (group_keys df).

Definition cost (x : nat * Row) : Q := relative_cost (snd x).

(** [df[df["relative_cost"] != -1]] and [df[df["relative_cost"] == -1]] *)
Definition is_failure (x : nat * Row) : bool := Qeq_bool (cost x) (-1).
Definition successes (df : DataFrame) : DataFrame :=
  List.filter (fun x => negb (is_failure x)) df.
Definition failed_routes (df : DataFrame) : DataFrame :=
  List.filter is_failure df.

(** The aggregation "mean": the sum over the count, as a number in lowest
    terms. *)
Definition mean (l : list Q) : Q :=
  Qred (fold_left Qplus l 0 / inject_Z (Z.of_nat (length l))).

(** [groupby(...).agg({"relative_cost": "mean"}).reset_index()]: one row per
    group, with the two key columns and the mean. *)
Definition average_df (success_df : DataFrame) : list (Key * Q) :=
  map (fun kg => (fst kg, mean (map cost (snd kg)))) (groupby success_df).

(** [idxmin] of a group: the label of the first row that attains the minimum
    ("If multiple values equal the minimum, the first row label with that
    value is returned"). *)
Fixpoint idxmin_from (best : nat * Row) (g : DataFrame) : nat :=
  match g with
  | [] => fst best
  | x :: g' =>
      match Qcompare (cost x) (cost best) with
      | Lt => idxmin_from x g'
      | _ => idxmin_from best g'
      end
  end.

Definition idxmin (g : DataFrame) : result nat :=
  match g with
  | [] => raise ValueError_empty_sequence
  | x :: g' => ret (idxmin_from x g')
  end.

(** [df.loc[idx]]: for each label in turn, the rows that carry it; a label
    that no row carries raises. *)
Definition loc (df : DataFrame) (idx : list nat) : result DataFrame :=
  (do found <-
      mapM (fun i =>
              match List.filter (fun x => (fst x =? i)%nat) df with
              | [] => raise (KeyError_label i)
              | rows => ret rows
              end) idx ;
   ret (concat found))%py.

(** The frame [min_relative_cost_df] of [best]. *)
Definition best_df (success_df : DataFrame) : result DataFrame :=
  (do idx <- mapM (fun kg => idxmin (snd kg)) (groupby success_df) ;
   do rows <- loc success_df idx ;
   ret (reset_index rows))%py.

(** [groupby(...).size().reset_index(name="failed_routes_count")] *)
Definition failed_routes_count (failed_routes_df : DataFrame)
  : list (Key * nat) :=
  map (fun kg => (fst kg, length (snd kg))) (groupby failed_routes_df).

(** The name of a route image,
    [f"{cost_constraint_ratio}_{chain_strength}_{trial}_{relative_cost}"],
    kept as its four fields. *)
Definition RouteName : Type := (Q * Q * Z * Q)%type.

(** A file written by the driver. *)
Inductive File : Type :=
  | PlotFile (p : Plot)
  | RouteFile (f : route_storer.Figure RouteName).

(** A run of the driver: the files written, in order, and how it ended. *)
Definition IO (A : Type) : Type := (list File * result A)%type.

Definition io_ret {A} (a : A) : IO A := ([], ret a).

Definition io_bind {A B} (m : IO A) (f : A -> IO B) : IO B :=
  match m with
  | (w, inl e) => (w, inl e)
  | (w, inr a) => let '(w', b) := f a in (w ++ w', b)
  end.

(** A call that writes one file or raises. *)
Definition writes (m : result File) : IO unit :=
  match m with
  | inl e => ([], inl e)
  | inr f => ([f], ret tt)
  end.

Definition plot (m : result Plot) : IO unit :=
  writes (bind m (fun p => ret (PlotFile p))).

Notation "m1 ;; m2" := (io_bind m1 (fun _ => m2))
  (at level 100, right associativity) : py_scope.

(** The columns cost_constraint_ratio, chain_strength and a value column. *)
Definition long_of {V} (value : V -> Q) (t : list (Key * V)) : Long Q :=
  map (fun kv => (fst (fst kv), snd (fst kv), value (snd kv))) t.

Definition long_of_frame (df : DataFrame) : Long Q :=
  map (fun x => (cost_constraint_ratio (snd x), chain_strength (snd x),
                 relative_cost (snd x))) df.

Definition average (success_df : DataFrame) (output_file : string) : IO unit :=
  let average_df := long_of (fun m => m) (average_df success_df) in
  (plot (save_heatmap average_df ("avg"%string, output_file)) ;;
   plot (save_contour_plot average_df ("avg"%string, output_file)))%py.

Definition best (success_df : DataFrame) (output_file : string) : IO unit :=
  match best_df success_df with
  | inl e => ([], inl e)
  | inr min_relative_cost_df =>
      let t := long_of_frame min_relative_cost_df in
      (plot (save_heatmap t ("best"%string, output_file)) ;;
       plot (save_contour_plot t ("best"%string, output_file)))%py
  end.

Definition failed_occurences (df : DataFrame) (output_file : string)
  : IO unit :=
  let failed_routes_df := failed_routes df in
  match failed_routes_df with
  | [] => io_ret tt
  | _ =>
      let failed_routes_df := failed_routes_count failed_routes_df in
      plot (save_heatmap
              (long_of (fun n => inject_Z (Z.of_nat n)) failed_routes_df)
              ("fails"%string, output_file))
  end.

(** [locations] is the validated content of the file [orders_file]. *)
Fixpoint visualise_deliveries (df : DataFrame)
    (locations : list route_storer.Order) : IO unit :=
  match df with
  | [] => io_ret tt
  | (_, row) :: df' =>
      let filename : RouteName :=
        (cost_constraint_ratio row, chain_strength row, trial row,
         relative_cost row) in
      let route_list := route row in
      (writes (bind (route_storer.create_graph locations route_list
                       "routes" filename)
                    (fun f => ret (RouteFile f))) ;;
       visualise_deliveries df' locations)%py
  end.

(** [post_process] on the rows of the input CSV, the output name and the
    content of the locations file. *)
Definition post_process (rows : list Row) (output_file : string)
    (locations : list route_storer.Order) : IO unit :=
  let df := read_csv rows in
  let success_df := successes df in
  (average success_df output_file ;;
   best success_df output_file ;;
   failed_occurences df output_file ;;
   visualise_deliveries df locations)%py.

End post_processing.

(** * Vocabulary of the properties *)

(** ** Routes *)
Section RouteVocabulary.
Import route_storer.
Local Open Scope R_scope.

(** The planar point (x, y) of a location. *)
Definition project_point (p : LatLon) : R * R :=
  (r * radians (d_lon p) * cos (radians centre_point_deg),
   r * radians (d_lat p)).

(** The dictionary [orders] built from the locations. *)
Definition orders_of (locations : list Order) : gmap Z LatLon :=
  snd (__reformat_locations locations).

(** The identifier is the [order_id] of some location. *)
Definition known (locations : list Order) (id : Z) : Prop :=
  In id (map order_id locations).

(** The consecutive pairs (route[i], route[i + 1]). *)
Fixpoint edges (route : list Z) : list (Z * Z) :=
  match route with
  | a :: ((b :: _) as rest) => (a, b) :: edges rest
  | _ => []
  end.

Definition arrow_of (se : LatLon * LatLon) : Arrow :=
  {| xytext := project_point (fst se); xy := project_point (snd se) |}.

Definition extend (acc : Ends) (ps : list (LatLon * LatLon)) : Ends :=
  {| start_longs := start_longs acc ++ map (fun se => d_lon (fst se)) ps;
     start_lat := start_lat acc ++ map (fun se => d_lat (fst se)) ps;
     end_longs := end_longs acc ++ map (fun se => d_lon (snd se)) ps;
     end_lats := end_lats acc ++ map (fun se => d_lat (snd se)) ps |}.

Definition looked_up (orders_dict : gmap Z LatLon)
    (ab : Z * Z) (se : LatLon * LatLon) : Prop :=
  orders_dict !! fst ab = Some (fst se) /\ orders_dict !! snd ab = Some (snd se).

(** The locations {1: (0, 0), 2: (0, 1)}, as (lat, lon). *)
Definition two_locations : list Order :=
  [ {| order_id := 1; lat := 0; lon := 0 |};
    {| order_id := 2; lat := 0; lon := 1 |} ].

(** The entry of the dictionary that an order gives. *)
Definition latlon_of (o : Order) : LatLon :=
  {| d_lat := lat o; d_lon := lon o |}.

(** The last location of the list that has the identifier [k]. *)
Definition last_with_id (locations : list Order) (k : Z) : option Order :=
  find (fun o => Z.eqb (order_id o) k) (rev locations).

(** A route that [create_graph] draws without a lookup error: it has fewer
    than two stops, or all its stops are identifiers of the locations. *)
Definition renderable (locations : list Order) (route : list Z) : Prop :=
  (length route < 2)%nat \/ forall id, In id route -> known locations id.

End RouteVocabulary.

(** ** Tables *)
Section TableVocabulary.
Import graph_storer post_processing.
Local Open Scope Q_scope.

(** Two rows of the table have the same (index, column) pair. *)
Definition duplicate_entries {V} (df : Long V) : Prop :=
  exists (n m : nat) (x y : Q * Q * V),
    (n < m)%nat /\ nth_error df n = Some x /\ nth_error df m = Some y
    /\ fst (fst x) == fst (fst y) /\ snd (fst x) == snd (fst y).

(** The cell in row [a] and column [b] of a grid. *)
Definition grid_at {V} (g : Grid V) (a b : nat) : option (option V) :=
  match nth_error (g_values g) a with
  | Some row => nth_error row b
  | None => None
  end.

(** The row lies in the cell of the two sweep parameters [k]. *)
Definition in_cell (k : Key) (x : nat * Row) : bool :=
  Qeq_bool (cost_constraint_ratio (snd x)) (fst k)
  && Qeq_bool (chain_strength (snd x)) (snd k).

(** The rows of the cell [k], in the order of the table. *)
Definition cell_rows (df : DataFrame) (k : Key) : DataFrame :=
  List.filter (in_cell k) df.

(** The sum of a list of numbers. *)
Definition Qsum (l : list Q) : Q := fold_right Qplus 0 l.

(** The record [r] is in the table, and among the records of its cell it has
    the least relative_cost and is the first to have it: [n] is its position,
    no record of the cell costs less and every earlier one costs more. *)
Definition first_minimum (df : DataFrame) (r : Row) : Prop :=
  exists (n label : nat),
    nth_error df n = Some (label, r)
    /\ forall (m : nat) (x : nat * Row),
         nth_error df m = Some x ->
         in_cell (key_of (label, r)) x = true ->
         relative_cost r <= cost x /\ ((m < n)%nat -> relative_cost r < cost x).

(** The row that [idxmin_from] gives the label of. *)
Fixpoint argmin_from (best : nat * Row) (g : DataFrame) : nat * Row :=
  match g with
  | [] => best
  | x :: g' =>
      match Qcompare (cost x) (cost best) with
      | Lt => argmin_from x g'
      | _ => argmin_from best g'
      end
  end.

Definition first_min_at (l : DataFrame) (n : nat) (y : nat * Row) : Prop :=
  nth_error l n = Some y
  /\ forall (m : nat) (x : nat * Row),
       nth_error l m = Some x ->
       cost y <= cost x /\ ((m < n)%nat -> cost y < cost x).

(** The row that [best] takes for the key [k]: a row of the table, in the
    cell of [k], the first minimum of that cell. *)
Definition best_of (df : DataFrame) (k : Key) (y : nat * Row) : Prop :=
  In y df /\ in_cell k y = true /\ first_minimum df (snd y).

Definition row (ratio strength : Q) (t : Z) (c : Q) (stops : list Z) : Row :=
  {| cost_constraint_ratio := ratio; chain_strength := strength; trial := t;
     relative_cost := c; route := stops |}.

(** A cell with the costs 5, 2, 8 and a second record of cost 2, and a
    failed trial in another cell. *)
Definition trials_5_2_8 : list Row :=
  [ row 0.5 1 0 5 [1; 2]%Z; row 0.5 1 1 2 [2; 1]%Z; row 0.5 1 2 8 [1; 2]%Z;
    row 0.5 1 3 2 [1; 2]%Z; row 0.25 2 0 (-1) [] ].

(** Three failed trials in one cell, two successful trials in another. *)
Definition three_failures : list Row :=
  [ row 0.5 1 0 (-1) []; row 0.25 2 0 7 [1; 2]%Z; row 0.5 1 1 (-1) [];
    row 0.5 1 2 (-1) []; row 0.25 2 1 9 [2; 1]%Z ].

Definition no_failures : list Row :=
  [ row 0.25 2 0 7 [1; 2]%Z; row 0.25 2 1 9 [2; 1]%Z ].

(** The input of C8: one cell with successful trials only, another cell with
    failed trials only; every route uses known locations. *)
Definition two_cells : list Row :=
  [ row 0.5 1 0 10 [1; 2]%Z; row 0.5 1 1 20 [2; 1]%Z; row 1 2 0 (-1) [] ].

(** A cell with the costs 10, 20, 30 and another cell. *)
Definition trials_10_20_30 : list Row :=
  [ row 0.5 1 0 10 [1; 2]%Z; row 0.5 1 1 20 [2; 1]%Z; row 0.25 2 0 4 [1; 2]%Z;
    row 0.5 1 2 30 [1; 2]%Z ].

(** Two ratios and two strengths: three cells with a successful trial, one
    with a failed and a successful trial. *)
Definition two_by_two : list Row :=
  [ row 0.5 1 0 10 [1; 2]%Z; row 0.5 2 0 20 [2; 1]%Z; row 1 1 0 (-1) [];
    row 1 2 0 7 [1; 2; 1]%Z; row 1 1 1 8 [1]%Z ].

(** Where a file is written: the path of a plot, the folder of a route
    image. *)
Definition written_to (f : File) : string :=
  match f with
  | PlotFile (Heatmap path _) => path
  | PlotFile (Contour path _) => path
  | RouteFile fig => route_storer.fig_folder fig
  end.

(** The list has two values that differ as numbers. *)
Definition two_values (l : list Q) : Prop :=
  exists a b : Q, In a l /\ In b l /\ ~ a == b.

(** The values of the index column and of the columns column of a table. *)
Definition index_values {V} (df : Long V) : list Q :=
  map (fun x => fst (fst x)) df.
Definition column_values {V} (df : Long V) : list Q :=
  map (fun x => snd (fst x)) df.

(** Keys in ascending order, as tuples: by cost_constraint_ratio, then by
    chain_strength. *)
Definition key_lt (a b : Key) : Prop :=
  fst a < fst b \/ (fst a == fst b /\ snd a < snd b).

(** The exceptions that can end a run of the driver on the rows [rows] and
    the locations [locations]: the TypeError of [plt.contourf], on a grid
    with fewer than two rows or columns, and the KeyError of a stop of some
    route that is not among the locations. *)
Definition driver_exception (locations : list route_storer.Order)
    (rows : list Row) (e : exn) : Prop :=
  match e with
  | TypeError_contour_shape r c => (r < 2)%nat \/ (c < 2)%nat
  | KeyError k =>
      ~ known locations k /\ exists x, In x rows /\ In k (route x)
  | _ => False
  end.

(** The image of the route of a row: in the folder "routes", named by the
    four fields of the row, with an arrow per pair of consecutive stops. *)
Definition route_image_of (x : nat * Row) (f : File) : Prop :=
  exists fig : route_storer.Figure RouteName,
    f = RouteFile fig
    /\ route_storer.fig_folder fig = "routes"%string
    /\ route_storer.fig_name fig
       = (cost_constraint_ratio (snd x), chain_strength (snd x),
          trial (snd x), relative_cost (snd x))
    /\ length (route_storer.arrows fig) = (length (route (snd x)) - 1)%nat.

(** The two plots of a table, as [average] and [best] write them. *)
Definition two_plots (t : Long Q) (file_parts : string * string) : IO unit :=
  io_bind (plot (save_heatmap t file_parts))
          (fun _ => plot (save_contour_plot t file_parts)).

(** The successful trials of the rows have two different values of the
    field [f]. *)
Definition successes_differ (f : Row -> Q) (rows : list Row) : Prop :=
  exists a b : Row,
    In a rows /\ In b rows
    /\ ~ relative_cost a == -1 /\ ~ relative_cost b == -1
    /\ ~ f a == f b.

(** The paths of the plots of a full run. *)
Definition plot_paths (output_file : string) (failures : bool) : list string :=
  [ data_path (String.append "avg" (String.append "_heatmap_" output_file));
    data_path (String.append "avg" (String.append "_contours_" output_file));
    data_path (String.append "best" (String.append "_heatmap_" output_file));
    data_path (String.append "best" (String.append "_contours_" output_file)) ]
  ++ (if failures
      then [data_path (String.append "fails"
                         (String.append "_heatmap_" output_file))]
      else []).

End TableVocabulary.

(** * Properties of the projection *)
Section ProjectionProperties.
Import route_storer.
Local Open Scope R_scope.

Lemma project_fst (latitudes longitudes : list R) :
  fst (__equi_rect_project latitudes longitudes)
  = map (fun lat => r * radians lat) latitudes.
Proof. unfold __equi_rect_project; simpl. now rewrite map_map. Qed.

Lemma project_snd (latitudes longitudes : list R) :
  snd (__equi_rect_project latitudes longitudes)
  = map (fun lon => r * radians lon * cos (radians centre_point_deg)) longitudes.
Proof. unfold __equi_rect_project; simpl. now rewrite map_map. Qed.

Lemma project_pair (latitudes longitudes : list R) :
  __equi_rect_project latitudes longitudes
  = (map (fun lat => r * radians lat) latitudes,
     map (fun lon => r * radians lon * cos (radians centre_point_deg)) longitudes).
Proof.
  rewrite <- project_fst with (longitudes := longitudes).
  rewrite <- project_snd with (latitudes := latitudes).
  now destruct (__equi_rect_project latitudes longitudes).
Qed.

Lemma three_lt_PI : 3 < PI.
Proof. pose proof PI2_3_2. lra. Qed.

Lemma radians_eq_0 (deg : R) : radians deg = 0 <-> deg = 0.
Proof.
  unfold radians. pose proof three_lt_PI as HPI. split.
  - intros H. apply Rmult_integral in H. destruct H as [H | H]; [exact H | lra].
  - intros ->. lra.
Qed.

(** C1.  For all input sequences of latitudes and longitudes in degrees (of
    the same length or not), the projector returns as many y as latitudes and
    as many x as longitudes, the y of index i is 6371 * lat_rad and the x of
    index i is 6371 * lon_rad * cos(ref_lat_rad), where lat_rad and lon_rad
    are the inputs of index i times pi / 180 and the reference latitude is the
    constant -31.952258602714696; empty inputs give empty outputs. *)
Theorem C1_projector_formula (latitudes longitudes : list R) :
  let ys := fst (__equi_rect_project latitudes longitudes) in
  let xs := snd (__equi_rect_project latitudes longitudes) in
  length ys = length latitudes
  /\ length xs = length longitudes
  /\ (forall i : nat,
        nth_error ys i
        = option_map (fun lat => 6371 * (lat * (PI / 180)))
                     (nth_error latitudes i))
  /\ (forall i : nat,
        nth_error xs i
        = option_map
            (fun lon => 6371 * (lon * (PI / 180))
                        * cos (-31.952258602714696 * (PI / 180)))
            (nth_error longitudes i))
  /\ __equi_rect_project [] [] = ([], []).
Proof.
  cbv zeta. rewrite project_fst, project_snd.
  repeat split.
  - apply length_map.
  - apply length_map.
  - intros i. now rewrite nth_error_map.
  - intros i. now rewrite nth_error_map.
Qed.

(** C10.  The projection is elementwise.  Projecting two concatenated inputs
    gives the concatenation of the two projections; and when two inputs agree
    at index i (in latitude and in longitude), whatever their other entries
    and their lengths, the two outputs agree at index i. *)
Theorem C10_projector_pointwise
    (latitudes latitudes' longitudes longitudes' : list R) (i : nat)
    (Hlat : nth_error latitudes i = nth_error latitudes' i)
    (Hlon : nth_error longitudes i = nth_error longitudes' i) :
  nth_error (fst (__equi_rect_project latitudes longitudes)) i
  = nth_error (fst (__equi_rect_project latitudes' longitudes')) i
  /\ nth_error (snd (__equi_rect_project latitudes longitudes)) i
     = nth_error (snd (__equi_rect_project latitudes' longitudes')) i
  /\ (forall la1 la2 lo1 lo2 : list R,
        __equi_rect_project (la1 ++ la2) (lo1 ++ lo2)
        = (fst (__equi_rect_project la1 lo1) ++ fst (__equi_rect_project la2 lo2),
           snd (__equi_rect_project la1 lo1) ++ snd (__equi_rect_project la2 lo2))).
Proof.
  split; [| split].
  - rewrite !project_fst, !nth_error_map. now rewrite Hlat.
  - rewrite !project_snd, !nth_error_map. now rewrite Hlon.
  - intros la1 la2 lo1 lo2.
    rewrite !project_fst, !project_snd, project_pair.
    now rewrite !map_app.
Qed.

Lemma C10_projector_pointwise_witness :
  nth_error (fst (__equi_rect_project [10; -31; 40] [115; 116])) 1
  = nth_error (fst (__equi_rect_project [0; -31] [1; 116; 7; 8])) 1
  /\ nth_error (snd (__equi_rect_project [10; -31; 40] [115; 116])) 1
     = nth_error (snd (__equi_rect_project [0; -31] [1; 116; 7; 8])) 1.
Proof.
  destruct (C10_projector_pointwise
              [10; -31; 40] [0; -31] [115; 116] [1; 116; 7; 8] 1
              eq_refl eq_refl) as (Hy & Hx & _).
  split; [exact Hy | exact Hx].
Defined.

(** C9, as stated, fails: the latitude 0 is projected to y = 0 exactly, and 0
    is not the reference latitude. *)
Lemma C9_counterexample :
  exists y : R,
    fst (__equi_rect_project [0] [115.8]) = [y]
    /\ y = 0
    /\ 0 <> centre_point_deg.
Proof.
  exists (r * radians 0). repeat split.
  - unfold radians. lra.
  - unfold centre_point_deg. lra.
Qed.

(** C9, amended.  For a single-point input the projected y is
    6371 * lat * pi / 180, whatever the longitude: it is 0 exactly when the
    input latitude is 0.  The reference latitude is not subtracted: the
    projected y of the reference latitude is below -3392 (kilometres), not
    near 0. *)
Theorem C9_projected_y_zero_iff (lat lon : R) :
  exists y : R,
    fst (__equi_rect_project [lat] [lon]) = [y]
    /\ y = 6371 * (lat * (PI / 180))
    /\ (y = 0 <-> lat = 0)
    /\ (exists y_ref : R,
          fst (__equi_rect_project [centre_point_deg] [lon]) = [y_ref]
          /\ y_ref < -3392).
Proof.
  exists (r * radians lat). repeat split.
  - intros H. unfold r in H.
    apply Rmult_integral in H. destruct H as [H | H]; [lra |].
    now apply radians_eq_0.
  - intros ->. unfold r, radians. lra.
  - exists (r * radians centre_point_deg). split; [reflexivity |].
    unfold r, radians, centre_point_deg.
    pose proof three_lt_PI. lra.
Qed.

End ProjectionProperties.

(** * Properties of the route renderer *)
Section RouteProperties.
Import route_storer.
Local Open Scope R_scope.

Lemma project_point_spec (p : LatLon) :
  __equi_rect_project [d_lat p] [d_lon p]
  = ([snd (project_point p)], [fst (project_point p)]).
Proof. reflexivity. Qed.

Lemma edges_length (route : list Z) :
  length (edges route) = (length route - 1)%nat.
Proof.
  induction route as [| a [| b rest] IH]; try reflexivity.
  change (edges (a :: b :: rest)) with ((a, b) :: edges (b :: rest)).
  simpl length in *. lia.
Qed.

Lemma edges_nth_error (route : list Z) (i : nat) (a b : Z) :
  nth_error route i = Some a -> nth_error route (S i) = Some b ->
  nth_error (edges route) i = Some (a, b).
Proof.
  revert i. induction route as [| x [| y rest] IH]; intros i Ha Hb.
  - destruct i; discriminate.
  - destruct i; simpl in Hb; [discriminate | destruct i; discriminate].
  - change (edges (x :: y :: rest)) with ((x, y) :: edges (y :: rest)).
    destruct i as [| i].
    + simpl in Ha, Hb. now inversion Ha; inversion Hb; subst.
    + simpl. apply IH; assumption.
Qed.

Lemma orders_fold_is_Some (locations : list Order) (d : gmap Z LatLon) (k : Z) :
  is_Some (foldl (fun d order =>
             <[order_id order := {| d_lat := lat order; d_lon := lon order |}]> d)
           d locations !! k)
  <-> is_Some (d !! k) \/ known locations k.
Proof.
  unfold known. revert d.
  induction locations as [| o locations IH]; intros d; simpl.
  - tauto.
  - rewrite IH. rewrite lookup_insert_is_Some.
    destruct (decide (order_id o = k)); tauto.
Qed.

Lemma orders_of_is_Some (locations : list Order) (k : Z) :
  is_Some (orders_of locations !! k) <-> known locations k.
Proof.
  unfold orders_of, __reformat_locations.
  rewrite project_pair. simpl snd.
  rewrite orders_fold_is_Some, lookup_empty.
  split; [intros [[x Hx] | H]; [discriminate | exact H] | tauto].
Qed.

Lemma getitem_Some (d : gmap Z LatLon) (k : Z) (v : LatLon) :
  d !! k = Some v -> getitem d k = inr v.
Proof. unfold getitem. now intros ->. Qed.

Lemma getitem_None (d : gmap Z LatLon) (k : Z) :
  d !! k = None -> getitem d k = inl (KeyError k).
Proof. unfold getitem. now intros ->. Qed.

Lemma extend_nil (acc : Ends) : extend acc [] = acc.
Proof. destruct acc. unfold extend. simpl. now rewrite !app_nil_r. Qed.

Lemma extend_cons (acc : Ends) (se : LatLon * LatLon) ps :
  extend {| start_longs := start_longs acc ++ [d_lon (fst se)];
            start_lat := start_lat acc ++ [d_lat (fst se)];
            end_longs := end_longs acc ++ [d_lon (snd se)];
            end_lats := end_lats acc ++ [d_lat (snd se)] |} ps
  = extend acc (se :: ps).
Proof. unfold extend. simpl. now rewrite <- !app_assoc. Qed.

(** With every identifier in the dictionary the first loop looks up each
    consecutive pair and raises nothing. *)
Lemma add_route_known (d : gmap Z LatLon) (route : list Z) :
  Forall (fun k => is_Some (d !! k)) route ->
  forall acc, exists ps,
    Forall2 (looked_up d) (edges route) ps
    /\ add_route d acc route = inr (extend acc ps).
Proof.
  induction route as [| a [| b rest] IH]; intros Hall acc.
  - exists []. split; [constructor | now rewrite extend_nil].
  - exists []. split; [constructor | now rewrite extend_nil].
  - inversion Hall as [| ? ? [pa Ha] Hall']; subst.
    pose proof Hall' as Hall''.
    inversion Hall'' as [| ? ? [pb Hb] _]; subst.
    change (add_route d acc (a :: b :: rest))
      with (bind (add_edge d acc a b) (fun acc' => add_route d acc' (b :: rest))).
    unfold add_edge.
    rewrite (getitem_Some _ _ _ Ha), (getitem_Some _ _ _ Hb). cbn [bind ret raise].
    destruct (IH Hall'
                {| start_longs := start_longs acc ++ [d_lon pa];
                   start_lat := start_lat acc ++ [d_lat pa];
                   end_longs := end_longs acc ++ [d_lon pb];
                   end_lats := end_lats acc ++ [d_lat pb] |})
      as (ps & Hps & Hrun).
    exists ((pa, pb) :: ps). split.
    + change (edges (a :: b :: rest)) with ((a, b) :: edges (b :: rest)).
      constructor; [split; assumption | exact Hps].
    + rewrite Hrun. now rewrite <- extend_cons.
Qed.

(** A route of at least two stops with an identifier that is not in the
    dictionary: the first loop raises [KeyError] on such an identifier. *)
Lemma add_route_unknown (d : gmap Z LatLon) (route : list Z) :
  (2 <= length route)%nat ->
  Exists (fun k => d !! k = None) route ->
  forall acc, exists k,
    In k route /\ d !! k = None /\ add_route d acc route = inl (KeyError k).
Proof.
  induction route as [| a [| b rest] IH]; intros Hlen Hex acc.
  - simpl in Hlen. lia.
  - simpl in Hlen. lia.
  - change (add_route d acc (a :: b :: rest))
      with (bind (add_edge d acc a b) (fun acc' => add_route d acc' (b :: rest))).
    unfold add_edge.
    destruct (d !! a) as [pa |] eqn:Ha.
    + rewrite (getitem_Some _ _ _ Ha). cbn [bind ret raise].
      destruct (d !! b) as [pb |] eqn:Hb.
      * rewrite (getitem_Some _ _ _ Hb). cbn [bind ret raise].
        assert (Hex' : Exists (fun k => d !! k = None) (b :: rest)).
        { inversion Hex as [? ? H | ? ? H]; subst; [congruence | exact H]. }
        assert (Hlen' : (2 <= length (b :: rest))%nat).
        { destruct rest as [| c rest]; [| simpl; lia].
          inversion Hex' as [? ? H | ? ? H]; subst; [congruence | inversion H]. }
        match goal with
        | |- context [add_route d ?acc' (b :: rest)] =>
            destruct (IH Hlen' Hex' acc') as (k & Hin & Hk & Hrun)
        end.
        exists k. split; [now right | split; [exact Hk | exact Hrun]].
      * rewrite (getitem_None _ _ Hb). cbn [bind ret raise].
        exists b. split; [simpl; tauto | split; [exact Hb | reflexivity]].
    + rewrite (getitem_None _ _ Ha). cbn [bind ret raise].
      exists a. split; [simpl; tauto | split; [exact Ha | reflexivity]].
Qed.

Lemma lookup_nth_error {A} (l : list A) (i : nat) : l !! i = nth_error l i.
Proof. revert i. induction l as [| x l IH]; intros [| i]; simpl; auto. Qed.

Lemma subscript_middle {A B C} (f : B -> C) (g : A -> B) (pre : list A) (p : A)
    (ps : list A) :
  subscript (map f (map g (pre ++ p :: ps))) (length pre) = inr (f (g p)).
Proof.
  unfold subscript. rewrite !map_app.
  rewrite nth_error_app2 by (rewrite !length_map; lia).
  rewrite !length_map, Nat.sub_diag. reflexivity.
Qed.

(** The second loop draws one arrow per collected pair, in order. *)
Lemma annotate_all (ps pre : list (LatLon * LatLon)) :
  mapM (annotate
          (map (fun lat => r * radians lat)
               (map (fun se => d_lat (fst se)) (pre ++ ps)))
          (map (fun lon => r * radians lon * cos (radians centre_point_deg))
               (map (fun se => d_lon (fst se)) (pre ++ ps)))
          (map (fun lat => r * radians lat)
               (map (fun se => d_lat (snd se)) (pre ++ ps)))
          (map (fun lon => r * radians lon * cos (radians centre_point_deg))
               (map (fun se => d_lon (snd se)) (pre ++ ps))))
       (seq (length pre) (length ps))
  = inr (map arrow_of ps).
Proof.
  revert pre. induction ps as [| p ps IH]; intros pre; [reflexivity |].
  cbn [length seq mapM]. unfold annotate at 1.
  rewrite !subscript_middle. cbn [bind ret raise].
  specialize (IH (pre ++ [p])).
  rewrite <- app_assoc in IH. cbn [app] in IH.
  rewrite length_app in IH. cbn [length] in IH.
  rewrite Nat.add_1_r in IH. rewrite IH. reflexivity.
Qed.

Lemma add_lines_known (d : gmap Z LatLon) (route : list Z) :
  Forall (fun k => is_Some (d !! k)) route ->
  exists ps,
    Forall2 (looked_up d) (edges route) ps
    /\ __add_lines [route] d = inr (map arrow_of ps).
Proof.
  intros Hall.
  destruct (add_route_known d route Hall no_ends) as (ps & Hps & Hrun).
  exists ps. split; [exact Hps |].
  unfold __add_lines. cbn [foldM]. rewrite Hrun. cbn [bind ret raise].
  rewrite !project_pair.
  unfold extend, no_ends. cbn [start_longs start_lat end_longs end_lats app].
  rewrite !length_map.
  exact (annotate_all ps []).
Qed.

Lemma add_lines_unknown (d : gmap Z LatLon) (route : list Z) :
  (2 <= length route)%nat ->
  Exists (fun k => d !! k = None) route ->
  exists k,
    In k route /\ d !! k = None /\ __add_lines [route] d = inl (KeyError k).
Proof.
  intros Hlen Hex.
  destruct (add_route_unknown d route Hlen Hex no_ends) as (k & Hin & Hk & Hrun).
  exists k. split; [exact Hin | split; [exact Hk |]].
  unfold __add_lines. cbn [foldM]. rewrite Hrun. reflexivity.
Qed.

Lemma create_graph_unfold {N} (locations : list Order) (route : list Z)
    (folder_name : string) (file_name : N) :
  create_graph locations route folder_name file_name
  = bind (__add_lines [route] (orders_of locations))
      (fun drawn =>
         ret {| fig_folder := folder_name; fig_name := file_name;
                scatter_x := snd (__equi_rect_project (map lat locations)
                                                      (map lon locations));
                scatter_y := fst (__equi_rect_project (map lat locations)
                                                      (map lon locations));
                arrows := drawn |}).
Proof.
  unfold create_graph, orders_of, __reformat_locations.
  rewrite !project_pair. reflexivity.
Qed.

Lemma known_all_is_Some (locations : list Order) (route : list Z) :
  (forall id, In id route -> known locations id) ->
  Forall (fun k => is_Some (orders_of locations !! k)) route.
Proof.
  intros H. apply List.Forall_forall. intros k Hk.
  apply orders_of_is_Some. auto.
Qed.

Lemma add_lines_succeeds (locations : list Order) (route : list Z) :
  (forall id, In id route -> known locations id) ->
  exists ps, __add_lines [route] (orders_of locations) = inr ps.
Proof.
  intros Hknown.
  destruct (add_lines_known (orders_of locations) route
              (known_all_is_Some _ _ Hknown)) as (ps & _ & Hrun).
  eauto.
Qed.

(** C5.  For every route whose identifiers all are identifiers of the
    Locations Collection, the renderer succeeds and draws length - 1 arrows
    (none for a route of fewer than two stops); for every index i with a stop
    i + 1, both stops are in the dictionary of locations and the arrow of
    index i goes from the projected point of stop i to the projected point of
    stop i + 1. *)
Theorem C5_route_arrows {N} (locations : list Order) (route : list Z)
    (folder_name : string) (file_name : N)
    (Hknown : forall id, In id route -> known locations id) :
  exists fig : Figure N,
    create_graph locations route folder_name file_name = inr fig
    /\ length (arrows fig) = (length route - 1)%nat
    /\ forall (i : nat) (a b : Z),
         nth_error route i = Some a ->
         nth_error route (S i) = Some b ->
         exists pa pb : LatLon,
           orders_of locations !! a = Some pa
           /\ orders_of locations !! b = Some pb
           /\ nth_error (arrows fig) i
              = Some {| xytext := project_point pa; xy := project_point pb |}.
Proof.
  destruct (add_lines_known (orders_of locations) route
              (known_all_is_Some _ _ Hknown)) as (ps & Hps & Hrun).
  rewrite create_graph_unfold, Hrun. cbn [bind ret raise].
  eexists. split; [reflexivity |]. cbn [arrows].
  split.
  - rewrite length_map, <- edges_length. symmetry.
    eapply Forall2_length; eassumption.
  - intros i a b Ha Hb.
    pose proof (edges_nth_error route i a b Ha Hb) as He.
    rewrite <- lookup_nth_error in He.
    destruct (Forall2_lookup_l _ _ _ _ _ Hps He) as ([pa pb] & Hp & Hl).
    destruct Hl as [Hla Hlb]. simpl in Hla, Hlb.
    exists pa, pb. split; [exact Hla | split; [exact Hlb |]].
    rewrite nth_error_map.
    rewrite <- lookup_nth_error. now rewrite Hp.
Qed.

Lemma two_locations_known (id : Z) :
  In id [1%Z; 2%Z] -> known two_locations id.
Proof. unfold known. simpl. tauto. Qed.

Lemma C5_route_arrows_witness :
  exists fig : Figure string,
    create_graph two_locations [1%Z; 2%Z] "routes"%string "0.5_1.0_0_10.0"%string = inr fig
    /\ arrows fig
       = [ {| xytext := project_point {| d_lat := 0; d_lon := 0 |};
              xy := project_point {| d_lat := 0; d_lon := 1 |} |} ].
Proof.
  destruct (C5_route_arrows two_locations [1%Z; 2%Z] "routes"%string "0.5_1.0_0_10.0"%string
              two_locations_known) as (fig & Hrun & Hlen & Hnth).
  exists fig. split; [exact Hrun |].
  destruct (Hnth 0%nat 1%Z 2%Z eq_refl eq_refl) as (pa & pb & Ha & Hb & H0).
  assert (Epa : pa = {| d_lat := 0; d_lon := 0 |}) by (injection Ha; auto).
  assert (Epb : pb = {| d_lat := 0; d_lon := 1 |}) by (injection Hb; auto).
  rewrite Epa, Epb in H0.
  destruct (arrows fig) as [| x [| y rest]]; simpl in Hlen, H0.
  - discriminate H0.
  - now injection H0 as ->.
  - discriminate Hlen.
Defined.

(** C6, as stated, fails: a route of one stop is rendered without any
    lookup, also when its identifier is not in the Locations Collection. *)
Lemma C6_counterexample :
  In 99%Z [99%Z]
  /\ ~ known two_locations 99
  /\ exists fig : Figure string,
       create_graph two_locations [99%Z] "routes"%string "0.5_1.0_0_10.0"%string = inr fig
       /\ arrows fig = [].
Proof.
  split; [simpl; tauto |]. split.
  - unfold known. simpl. intros [H | [H | []]]; discriminate H.
  - rewrite create_graph_unfold. eexists. split; reflexivity.
Qed.

(** C6, amended.  Rendering succeeds whenever every identifier of the route
    is in the Locations Collection; it also succeeds, with no arrow and no
    lookup, for every route of fewer than two stops; and for every route of at
    least two stops with an identifier that is not in the collection it
    raises [KeyError] on such an identifier of the route and saves no
    figure. *)
Theorem C6_lookup_error {N} (locations : list Order) (route : list Z)
    (folder_name : string) (file_name : N) :
  ((forall id, In id route -> known locations id) ->
   exists fig : Figure N,
     create_graph locations route folder_name file_name = inr fig)
  /\ ((length route < 2)%nat ->
      exists fig : Figure N,
        create_graph locations route folder_name file_name = inr fig
        /\ arrows fig = [])
  /\ ((2 <= length route)%nat ->
      (exists id, In id route /\ ~ known locations id) ->
      exists k : Z,
        In k route /\ ~ known locations k
        /\ create_graph locations route folder_name file_name
           = inl (KeyError k)).
Proof.
  split; [| split].
  - intros Hknown.
    destruct (add_lines_succeeds locations route Hknown) as (ps & Hrun).
    rewrite create_graph_unfold, Hrun. eexists. reflexivity.
  - intros Hlen. rewrite create_graph_unfold.
    destruct route as [| a [| b rest]]; simpl in Hlen; try lia;
      eexists; split; reflexivity.
  - intros Hlen (id & Hin & Hid).
    assert (Hex : Exists (fun k => orders_of locations !! k = None) route).
    { apply List.Exists_exists. exists id. split; [exact Hin |].
      apply eq_None_not_Some. now rewrite orders_of_is_Some. }
    destruct (add_lines_unknown _ route Hlen Hex) as (k & Hk & Hnone & Hrun).
    exists k. split; [exact Hk |]. split.
    + rewrite <- orders_of_is_Some, Hnone. intros [x Hx]. discriminate Hx.
    + rewrite create_graph_unfold, Hrun. reflexivity.
Qed.

Lemma C6_lookup_error_witness :
  (exists fig : Figure string,
     create_graph two_locations [1%Z; 2%Z] "routes"%string "a"%string = inr fig)
  /\ (exists fig : Figure string,
        create_graph two_locations [99%Z] "routes"%string "b"%string = inr fig
        /\ arrows fig = [])
  /\ (exists k : Z,
        In k [1%Z; 99%Z; 2%Z] /\ ~ known two_locations k
        /\ create_graph two_locations [1%Z; 99%Z; 2%Z] "routes"%string "c"%string
           = inl (KeyError k)).
Proof.
  split; [| split].
  - apply (C6_lookup_error two_locations [1%Z; 2%Z] "routes"%string "a"%string).
    exact two_locations_known.
  - apply (C6_lookup_error two_locations [99%Z] "routes"%string "b"%string).
    simpl. lia.
  - apply (C6_lookup_error two_locations [1%Z; 99%Z; 2%Z] "routes"%string "c"%string).
    + simpl. lia.
    + exists 99%Z. split; [simpl; tauto |].
      unfold known. simpl. intros [H | [H | []]]; discriminate H.
Defined.

End RouteProperties.

(** * Properties of [sort_unique] *)
Section SortUniqueProperties.
Context {A : Type}.
Variable cmp : A -> A -> comparison.
Hypothesis cmp_refl : forall a, cmp a a = Eq.
Hypothesis cmp_antisym : forall a b, cmp b a = CompOpp (cmp a b).
Hypothesis cmp_lt_trans :
  forall a b c, cmp a b = Lt -> cmp b c = Lt -> cmp a c = Lt.
Hypothesis cmp_eq_compat : forall a b c, cmp a b = Eq -> cmp a c = cmp b c.

Lemma insert_unique_In (a x : A) (l : list A) :
  In x (insert_unique cmp a l) -> x = a \/ In x l.
Proof.
  induction l as [| b l IH]; simpl.
  - intros [H | []]. now left.
  - destruct (cmp a b); simpl; intros H.
    + now right.
    + destruct H as [H | H]; [now left | now right].
    + destruct H as [H | H]; [right; now left |].
      destruct (IH H) as [H' | H']; [now left | right; now right].
Qed.

Lemma insert_unique_keeps (a x : A) (l : list A) :
  In x l -> In x (insert_unique cmp a l).
Proof.
  induction l as [| b l IH]; simpl; [tauto |].
  intros H. destruct (cmp a b); simpl; tauto.
Qed.

Lemma insert_unique_represents (a : A) (l : list A) :
  exists y, In y (insert_unique cmp a l) /\ cmp a y = Eq.
Proof.
  induction l as [| b l IH]; simpl.
  - exists a. split; [now left | apply cmp_refl].
  - destruct (cmp a b) eqn:E.
    + exists b. split; [now left | exact E].
    + exists a. split; [now left | apply cmp_refl].
    + destruct IH as (y & Hy & Ey). exists y. split; [now right | exact Ey].
Qed.

Lemma insert_unique_sorted (a : A) (l : list A) :
  StronglySorted (cmp_lt cmp) l -> StronglySorted (cmp_lt cmp) (insert_unique cmp a l).
Proof.
  induction l as [| b l IH]; simpl; intros Hs.
  - constructor; [constructor | constructor].
  - inversion Hs as [| ? ? Hs' Hb]; subst.
    destruct (cmp a b) eqn:E.
    + exact Hs.
    + constructor; [exact Hs |].
      constructor; [exact E |].
      apply List.Forall_forall. intros x Hx.
      rewrite List.Forall_forall in Hb.
      exact (cmp_lt_trans _ _ _ E (Hb x Hx)).
    + constructor; [apply IH; exact Hs' |].
      apply List.Forall_forall. intros x Hx.
      destruct (insert_unique_In _ _ _ Hx) as [-> | Hin].
      * unfold cmp_lt. rewrite (cmp_antisym a b), E. reflexivity.
      * rewrite List.Forall_forall in Hb. exact (Hb x Hin).
Qed.

Lemma sort_unique_fold_In (l acc : list A) (x : A) :
  In x (fold_left (fun acc a => insert_unique cmp a acc) l acc) ->
  In x l \/ In x acc.
Proof.
  revert acc. induction l as [| a l IH]; simpl; intros acc H; [now right |].
  destruct (IH _ H) as [H' | H']; [left; now right |].
  destruct (insert_unique_In _ _ _ H') as [-> | H'']; [left; now left | now right].
Qed.

Lemma sort_unique_fold_keeps (l acc : list A) (x : A) :
  In x acc -> In x (fold_left (fun acc a => insert_unique cmp a acc) l acc).
Proof.
  revert acc. induction l as [| a l IH]; simpl; intros acc H; [exact H |].
  apply IH. now apply insert_unique_keeps.
Qed.

Lemma sort_unique_fold_sorted (l acc : list A) :
  StronglySorted (cmp_lt cmp) acc ->
  StronglySorted (cmp_lt cmp) (fold_left (fun acc a => insert_unique cmp a acc) l acc).
Proof.
  revert acc. induction l as [| a l IH]; simpl; intros acc H; [exact H |].
  apply IH. now apply insert_unique_sorted.
Qed.

Lemma sort_unique_fold_represents (l acc : list A) (a : A) :
  In a l ->
  exists y, In y (fold_left (fun acc a => insert_unique cmp a acc) l acc)
            /\ cmp a y = Eq.
Proof.
  revert acc. induction l as [| b l IH]; simpl; intros acc H; [tauto |].
  destruct H as [-> | H]; [| now apply IH].
  destruct (insert_unique_represents a acc) as (y & Hy & Ey).
  exists y. split; [now apply sort_unique_fold_keeps | exact Ey].
Qed.

(** Every value of the output is a value of the input. *)
Lemma sort_unique_In (l : list A) (x : A) : In x (sort_unique cmp l) -> In x l.
Proof.
  intros H. destruct (sort_unique_fold_In l [] x H) as [H' | []]. exact H'.
Qed.

(** Every value of the input compares equal to a value of the output. *)
Lemma sort_unique_represents (l : list A) (a : A) :
  In a l -> exists y, In y (sort_unique cmp l) /\ cmp a y = Eq.
Proof. apply sort_unique_fold_represents. Qed.

(** The output is strictly ascending. *)
Lemma sort_unique_sorted (l : list A) : StronglySorted (cmp_lt cmp) (sort_unique cmp l).
Proof. apply sort_unique_fold_sorted. constructor. Qed.

(** In a strictly ascending list two positions that compare equal are the
    same position. *)
Lemma sorted_eq_same_index (l : list A) (n m : nat) (x y : A) :
  StronglySorted (cmp_lt cmp) l ->
  nth_error l n = Some x -> nth_error l m = Some y -> cmp x y = Eq -> n = m.
Proof.
  intros Hs. revert n m. induction Hs as [| b l Hs IH Hb]; intros n m Hx Hy E.
  - destruct n; discriminate.
  - rewrite List.Forall_forall in Hb.
    destruct n as [| n], m as [| m]; simpl in Hx, Hy.
    + reflexivity.
    + injection Hx as ->. apply nth_error_In in Hy.
      specialize (Hb y Hy). unfold cmp_lt in Hb. congruence.
    + injection Hy as ->. apply nth_error_In in Hx.
      specialize (Hb x Hx). unfold cmp_lt in Hb.
      rewrite (cmp_antisym y x), Hb in E. discriminate.
    + f_equal. eapply IH; eassumption.
Qed.

Lemma sorted_eq_same (l : list A) (x y : A) :
  StronglySorted (cmp_lt cmp) l -> In x l -> In y l -> cmp x y = Eq -> x = y.
Proof.
  intros Hs Hx Hy E.
  apply In_nth_error in Hx. destruct Hx as (n & Hn).
  apply In_nth_error in Hy. destruct Hy as (m & Hm).
  assert (n = m) by (eapply sorted_eq_same_index; eassumption).
  subst. congruence.
Qed.

End SortUniqueProperties.

(** The order of the rationals and the order of the keys satisfy the
    hypotheses of the section above. *)
Section Orders.
Import post_processing.

Lemma Qcompare_refl (a : Q) : Qcompare a a = Eq.
Proof. apply Qeq_alt. reflexivity. Qed.

Lemma Qcompare_antisym' (a b : Q) : Qcompare b a = CompOpp (Qcompare a b).
Proof. symmetry. apply Qcompare_antisym. Qed.

Lemma Qcompare_lt_trans (a b c : Q) :
  Qcompare a b = Lt -> Qcompare b c = Lt -> Qcompare a c = Lt.
Proof. rewrite <- !Qlt_alt. apply Qlt_trans. Qed.

Lemma Qcompare_eq_compat (a b c : Q) :
  Qcompare a b = Eq -> Qcompare a c = Qcompare b c.
Proof. rewrite <- Qeq_alt. intros H. now rewrite H. Qed.

Lemma key_compare_Eq (a b : Key) :
  key_compare a b = Eq <-> (fst a == fst b /\ snd a == snd b)%Q.
Proof.
  unfold key_compare. rewrite !Qeq_alt.
  destruct (Qcompare (fst a) (fst b)); split; try tauto;
    try discriminate; intros [H _]; discriminate H.
Qed.

Lemma key_compare_refl (a : Key) : key_compare a a = Eq.
Proof. apply key_compare_Eq. split; reflexivity. Qed.

Lemma key_compare_antisym (a b : Key) :
  key_compare b a = CompOpp (key_compare a b).
Proof.
  unfold key_compare.
  rewrite (Qcompare_antisym' (fst a) (fst b)), (Qcompare_antisym' (snd a) (snd b)).
  destruct (Qcompare (fst a) (fst b)); reflexivity.
Qed.

Lemma key_compare_eq_compat (a b c : Key) :
  key_compare a b = Eq -> key_compare a c = key_compare b c.
Proof.
  rewrite key_compare_Eq. intros [H1 H2]. unfold key_compare.
  now rewrite H1, H2.
Qed.

Lemma key_compare_lt_trans (a b c : Key) :
  key_compare a b = Lt -> key_compare b c = Lt -> key_compare a c = Lt.
Proof.
  unfold key_compare.
  destruct (Qcompare (fst a) (fst b)) eqn:Eab; try discriminate;
    destruct (Qcompare (fst b) (fst c)) eqn:Ebc; try discriminate; intros H1 H2.
  - rewrite (Qcompare_eq_compat _ _ _ Eab), Ebc.
    eapply Qcompare_lt_trans; eassumption.
  - now rewrite (Qcompare_eq_compat _ _ _ Eab), Ebc.
  - apply Qeq_alt in Ebc. rewrite <- Ebc, Eab. reflexivity.
  - now rewrite (Qcompare_lt_trans _ _ _ Eab Ebc).
Qed.

Lemma key_eqb_true (a b : Key) :
  key_eqb a b = true <-> (fst a == fst b /\ snd a == snd b)%Q.
Proof.
  rewrite <- key_compare_Eq. unfold key_eqb.
  destruct (key_compare a b); split; congruence.
Qed.

End Orders.

(** * Properties of the pivot *)
Section PivotProperties.
Import graph_storer.
Local Open Scope Q_scope.

Lemma at_cell_true {V} (i c : Q) (x : Q * Q * V) :
  at_cell i c x = true <-> fst (fst x) == i /\ snd (fst x) == c.
Proof. unfold at_cell. now rewrite andb_true_iff, !Qeq_bool_iff. Qed.

Lemma has_duplicate_entries_true {V} (df : Long V) :
  has_duplicate_entries df = true <-> duplicate_entries df.
Proof.
  induction df as [| x df IH]; simpl.
  - split; [discriminate |].
    intros (n & m & a & b & _ & Hn & _). destruct n; discriminate.
  - rewrite orb_true_iff, IH, existsb_exists. split.
    + intros [(y & Hy & Hc) | (n & m & a & b & Hlt & Hn & Hm & H1 & H2)].
      * apply In_nth_error in Hy. destruct Hy as (m & Hm).
        apply at_cell_true in Hc. destruct Hc as [H1 H2].
        exists 0%nat, (S m), x, y. repeat split; auto; try lia;
          symmetry; assumption.
      * exists (S n), (S m), a, b. repeat split; auto. lia.
    + intros (n & m & a & b & Hlt & Hn & Hm & H1 & H2).
      destruct m as [| m]; [lia |]. simpl in Hm.
      destruct n as [| n]; simpl in Hn.
      * injection Hn as ->. left. exists b. split.
        -- eapply nth_error_In; eassumption.
        -- apply at_cell_true. split; symmetry; assumption.
      * right. exists n, m, a, b. repeat split; auto. lia.
Qed.

(** Without duplicates a cell holds the value of the one row of the table
    that has its index and its column. *)
Lemma cell_unique {V} (df : Long V) (i c i' c' : Q) (v : V) :
  has_duplicate_entries df = false ->
  In (i, c, v) df -> i' == i -> c' == c -> cell df i' c' = Some v.
Proof.
  intros Hnd Hin Hi Hc. unfold cell.
  induction df as [| x df IH]; [destruct Hin |].
  simpl in Hnd. apply orb_false_elim in Hnd. destruct Hnd as [Hx Hnd].
  simpl. destruct (at_cell i' c' x) eqn:E.
  - destruct Hin as [-> | Hin]; [reflexivity |]. exfalso.
    apply at_cell_true in E. destruct E as [E1 E2].
    assert (Hdup : existsb (at_cell (fst (fst x)) (snd (fst x))) df = true).
    { apply existsb_exists. exists (i, c, v). split; [exact Hin |].
      apply at_cell_true. simpl. split.
      - now rewrite E1, Hi.
      - now rewrite E2, Hc. }
    congruence.
  - destruct Hin as [-> | Hin]; [| now apply IH].
    exfalso. assert (at_cell i' c' (i, c, v) = true); [| congruence].
    apply at_cell_true. simpl. split; symmetry; assumption.
Qed.

Lemma sorted_Qlt (l : list Q) :
  StronglySorted (cmp_lt Qcompare) l -> StronglySorted Qlt l.
Proof.
  induction 1 as [| a l Hs IH Ha]; constructor; [exact IH |].
  rewrite List.Forall_forall in *. intros x Hx.
  apply Qlt_alt. exact (Ha x Hx).
Qed.

Lemma axis_position (l : list Q) (a : Q) :
  In a l ->
  exists (n : nat) (a' : Q),
    nth_error (sort_unique Qcompare l) n = Some a' /\ a' == a.
Proof.
  intros Hin.
  destruct (sort_unique_represents Qcompare Qcompare_refl l a Hin)
    as (y & Hy & E).
  apply In_nth_error in Hy. destruct Hy as (n & Hn).
  exists n, y. split; [exact Hn |]. symmetry. now apply Qeq_alt.
Qed.

(** C7, as stated, fails: on a table with a duplicate (index, column) pair
    the pivot raises, and so do the heatmap and the contour plotter; no cell
    takes the last value. *)
Lemma C7_counterexample :
  duplicate_entries [(1, 1, 5); (1, 1, 7)]
  /\ pivot [(1, 1, 5); (1, 1, 7)] = inl ValueError_duplicate_entries
  /\ save_heatmap [(1, 1, 5); (1, 1, 7)] ("avg", "out")%string
     = inl ValueError_duplicate_entries
  /\ save_contour_plot [(1, 1, 5); (1, 1, 7)] ("avg", "out")%string
     = inl ValueError_duplicate_entries.
Proof.
  split; [| repeat split].
  exists 0%nat, 1%nat, (1, 1, 5), (1, 1, 7).
  repeat split; auto.
Qed.

(** C7, amended.  For every table with a duplicate (index, column) pair the
    pivot raises ValueError, whatever the values, and returns no grid.  For
    every table without such a pair it returns a grid whose row labels and
    column labels are strictly ascending and in which the value of every row
    of the table is in the cell of its index and its column. *)
Theorem C7_pivot_duplicates {V} (df : Long V) :
  (duplicate_entries df -> pivot df = inl ValueError_duplicate_entries)
  /\ (~ duplicate_entries df ->
      exists g : Grid V,
        pivot df = inr g
        /\ StronglySorted Qlt (g_index g)
        /\ StronglySorted Qlt (g_columns g)
        /\ forall (i c : Q) (v : V),
             In (i, c, v) df ->
             exists (a b : nat) (i' c' : Q),
               nth_error (g_index g) a = Some i' /\ i' == i
               /\ nth_error (g_columns g) b = Some c' /\ c' == c
               /\ grid_at g a b = Some (Some v)).
Proof.
  split.
  - intros H. apply has_duplicate_entries_true in H.
    unfold pivot. now rewrite H.
  - intros H. rewrite <- has_duplicate_entries_true in H.
    apply not_true_is_false in H.
    unfold pivot. rewrite H. eexists. split; [reflexivity |].
    cbn [g_index g_columns]. split; [| split].
    + apply sorted_Qlt, sort_unique_sorted.
      * exact Qcompare_antisym'.
      * exact Qcompare_lt_trans.
    + apply sorted_Qlt, sort_unique_sorted.
      * exact Qcompare_antisym'.
      * exact Qcompare_lt_trans.
    + intros i c v Hin.
      destruct (axis_position (map (fun x => fst (fst x)) df) i)
        as (a & i' & Ha & Hi).
      { change i with ((fun x : Q * Q * V => fst (fst x)) (i, c, v)).
        now apply in_map. }
      destruct (axis_position (map (fun x => snd (fst x)) df) c)
        as (b & c' & Hb & Hc).
      { change c with ((fun x : Q * Q * V => snd (fst x)) (i, c, v)).
        now apply in_map. }
      exists a, b, i', c'. repeat split; auto.
      unfold grid_at. cbn [g_values].
      rewrite nth_error_map, Ha. cbn [option_map].
      rewrite nth_error_map, Hb. cbn [option_map].
      f_equal. eapply cell_unique; eassumption.
Qed.

Lemma C7_pivot_duplicates_witness :
  pivot [(1, 1, 5); (1, 1, 7)] = inl ValueError_duplicate_entries
  /\ exists g : Grid Q,
       pivot [(1, 1, 5); (1, 2, 7)] = inr g
       /\ StronglySorted Qlt (g_index g)
       /\ StronglySorted Qlt (g_columns g)
       /\ forall (i c : Q) (v : Q),
            In (i, c, v) [(1, 1, 5); (1, 2, 7)] ->
            exists (a b : nat) (i' c' : Q),
              nth_error (g_index g) a = Some i' /\ i' == i
              /\ nth_error (g_columns g) b = Some c' /\ c' == c
              /\ grid_at g a b = Some (Some v).
Proof.
  split.
  - apply (C7_pivot_duplicates [(1, 1, 5); (1, 1, 7)]).
    exists 0%nat, 1%nat, (1, 1, 5), (1, 1, 7).
    repeat split; auto.
  - apply (C7_pivot_duplicates [(1, 1, 5); (1, 2, 7)]).
    rewrite <- has_duplicate_entries_true. vm_compute. discriminate.
Defined.

End PivotProperties.

(** * Properties of the aggregation *)
Section AggregatorProperties.
Import graph_storer post_processing.
Local Open Scope Q_scope.

Lemma in_cell_key_eqb (k : Key) (x : nat * Row) :
  key_eqb (key_of x) k = in_cell k x.
Proof.
  apply eq_true_iff_eq. rewrite key_eqb_true. unfold in_cell, key_of.
  now rewrite andb_true_iff, !Qeq_bool_iff.
Qed.

Lemma get_group_cell_rows (df : DataFrame) (k : Key) :
  get_group df k = cell_rows df k.
Proof.
  unfold get_group, cell_rows. apply filter_ext. intros x.
  apply in_cell_key_eqb.
Qed.

Lemma in_cell_true (k : Key) (x : nat * Row) :
  in_cell k x = true <-> key_compare (key_of x) k = Eq.
Proof.
  rewrite <- in_cell_key_eqb. unfold key_eqb.
  destruct (key_compare (key_of x) k); split; congruence.
Qed.

Lemma in_cell_compat (k k' : Key) (x : nat * Row) :
  key_compare k k' = Eq -> in_cell k x = in_cell k' x.
Proof.
  intros E. apply eq_true_iff_eq. rewrite !in_cell_true.
  rewrite (key_compare_antisym k (key_of x)),
          (key_compare_antisym k' (key_of x)).
  now rewrite (key_compare_eq_compat _ _ _ E).
Qed.

Lemma group_keys_sorted (df : DataFrame) :
  StronglySorted (cmp_lt key_compare) (group_keys df).
Proof.
  apply sort_unique_sorted.
  - exact key_compare_antisym.
  - exact key_compare_lt_trans.
Qed.

(** Every key of [groupby] is the key of a row, so its group is not empty. *)
Lemma group_keys_In (df : DataFrame) (k : Key) :
  In k (group_keys df) -> exists x, In x df /\ key_of x = k.
Proof.
  intros H. apply sort_unique_In in H. apply in_map_iff in H.
  destruct H as (x & Hx & Hin). eauto.
Qed.

Lemma group_nonempty (df : DataFrame) (k : Key) :
  In k (group_keys df) -> cell_rows df k <> [].
Proof.
  intros H. destruct (group_keys_In df k H) as (x & Hx & <-).
  assert (Hin : In x (cell_rows df (key_of x))).
  { apply filter_In. split; [exact Hx |].
    apply in_cell_true, key_compare_refl. }
  intros E. now rewrite E in Hin.
Qed.

(** Every row lies in the cell of exactly one key of [groupby]. *)
Lemma group_keys_cover (df : DataFrame) (x : nat * Row) :
  In x df -> exists k, In k (group_keys df) /\ in_cell k x = true.
Proof.
  intros H.
  destruct (sort_unique_represents key_compare key_compare_refl
              (map key_of df) (key_of x) (in_map key_of df x H))
    as (k & Hk & E).
  exists k. split; [exact Hk | now apply in_cell_true].
Qed.

Lemma group_keys_unique (df : DataFrame) (k k' : Key) (x : nat * Row) :
  In k (group_keys df) -> In k' (group_keys df) ->
  in_cell k x = true -> in_cell k' x = true -> k = k'.
Proof.
  intros Hk Hk' E E'. apply in_cell_true in E, E'.
  eapply sorted_eq_same.
  - exact key_compare_antisym.
  - apply group_keys_sorted.
  - exact Hk.
  - exact Hk'.
  - assert (E1 : key_compare k (key_of x) = Eq)
      by (rewrite key_compare_antisym, E; reflexivity).
    rewrite (key_compare_eq_compat _ _ _ E1). exact E'.
Qed.

Lemma fold_left_Qplus (l : list Q) (a : Q) :
  fold_left Qplus l a == a + Qsum l.
Proof.
  revert a. induction l as [| x l IH]; intros a; simpl.
  - ring.
  - rewrite IH. ring.
Qed.

(** [mean] is the arithmetic mean: the sum divided by the count. *)
Lemma mean_spec (l : list Q) :
  mean l == Qsum l / inject_Z (Z.of_nat (length l)).
Proof.
  unfold mean. rewrite Qred_correct, fold_left_Qplus.
  apply Qdiv_comp; [ring | reflexivity].
Qed.

Lemma mean_canonical (l : list Q) (m : Q) :
  Qsum l / inject_Z (Z.of_nat (length l)) == m -> mean l = Qred m.
Proof.
  intros H. unfold mean. apply Qred_complete.
  rewrite fold_left_Qplus, <- H.
  apply Qdiv_comp; [ring | reflexivity].
Qed.

Lemma average_df_In (df : DataFrame) (k : Key) (m : Q) :
  In (k, m) (average_df df)
  <-> In k (group_keys df) /\ m = mean (map cost (cell_rows df k)).
Proof.
  unfold average_df, groupby. rewrite map_map. cbn [fst snd].
  rewrite in_map_iff. split.
  - intros (k' & E & Hk). injection E as <- <-.
    now rewrite get_group_cell_rows.
  - intros [Hk ->]. exists k. now rewrite get_group_cell_rows.
Qed.

(** C2.  For every table, [average] groups by the pair
    (cost_constraint_ratio, chain_strength): every record lies in the cell of
    one row of the result, the result has one row per cell, and the value of
    a row is the arithmetic mean of relative_cost over the records of its
    cell, which are not none: their sum divided by their count.  A cell with
    the costs 10, 20, 30 has the mean 20 exactly. *)
Theorem C2_average_mean (df : DataFrame) :
  (forall x, In x df ->
     exists k m, In (k, m) (average_df df) /\ in_cell k x = true)
  /\ (forall k m, In (k, m) (average_df df) ->
        cell_rows df k <> []
        /\ m == Qsum (map cost (cell_rows df k))
                / inject_Z (Z.of_nat (length (cell_rows df k))))
  /\ (forall k k' m m' x,
        In (k, m) (average_df df) -> In (k', m') (average_df df) ->
        in_cell k x = true -> in_cell k' x = true -> (k, m) = (k', m'))
  /\ (forall k m, In (k, m) (average_df df) ->
        map relative_cost (map snd (cell_rows df k)) = [10; 20; 30] ->
        m = 20).
Proof.
  split; [| split; [| split]].
  - intros x Hx. destruct (group_keys_cover df x Hx) as (k & Hk & E).
    exists k, (mean (map cost (cell_rows df k))).
    split; [| exact E]. apply average_df_In. now split.
  - intros k m H. apply average_df_In in H. destruct H as [Hk ->].
    split; [now apply group_nonempty |].
    rewrite mean_spec. now rewrite length_map.
  - intros k k' m m' x H H' E E'.
    apply average_df_In in H, H'. destruct H as [Hk ->], H' as [Hk' ->].
    assert (k = k') by (eapply group_keys_unique; eassumption).
    now subst.
  - intros k m H E. apply average_df_In in H. destruct H as [_ ->].
    unfold cost. rewrite <- (map_map snd relative_cost), E.
    reflexivity.
Qed.

Lemma C2_average_mean_witness :
  In ((0.5, 1), 20) (average_df (read_csv trials_10_20_30))
  /\ map relative_cost (map snd (cell_rows (read_csv trials_10_20_30) (0.5, 1)))
     = [10; 20; 30]
  /\ cell_rows (read_csv trials_10_20_30) (0.5, 1) <> []
  /\ 20 == Qsum (map cost (cell_rows (read_csv trials_10_20_30) (0.5, 1)))
           / inject_Z (Z.of_nat
                         (length (cell_rows (read_csv trials_10_20_30) (0.5, 1)))).
Proof.
  assert (Hin : In ((0.5, 1), 20) (average_df (read_csv trials_10_20_30)))
    by (right; left; reflexivity).
  split; [exact Hin |]. split; [reflexivity |].
  destruct (C2_average_mean (read_csv trials_10_20_30)) as (_ & Hmean & _ & _).
  exact (Hmean _ _ Hin).
Defined.

Lemma idxmin_from_argmin (best : nat * Row) (g : DataFrame) :
  idxmin_from best g = fst (argmin_from best g).
Proof.
  revert best. induction g as [| x g IH]; intros best; simpl; [reflexivity |].
  destruct (Qcompare (cost x) (cost best)); apply IH.
Qed.

Lemma first_min_keep (best x res : nat * Row) (g : DataFrame) (n : nat) :
  cost best <= cost x ->
  first_min_at (best :: g) n res ->
  exists n', first_min_at (best :: x :: g) n' res.
Proof.
  intros Hle [Hn Hmin]. destruct n as [| n].
  - exists 0%nat. split; [exact Hn |]. intros m z Hz.
    split; [| lia]. simpl in Hn. injection Hn as Hres.
    destruct m as [| [| m]]; simpl in Hz.
    + injection Hz as <-. rewrite Hres. apply Qle_refl.
    + injection Hz as <-. now rewrite <- Hres.
    + apply (Hmin (S m) z Hz).
  - exists (S (S n)). split; [exact Hn |]. intros m z Hz.
    pose proof (Hmin 0%nat best eq_refl) as [_ Hb].
    specialize (Hb ltac:(lia)).
    destruct m as [| [| m]]; simpl in Hz.
    + injection Hz as <-. split; [now apply Qlt_le_weak | auto].
    + injection Hz as <-.
      assert (cost res < cost x) by (eapply Qlt_le_trans; eassumption).
      split; [now apply Qlt_le_weak | auto].
    + destruct (Hmin (S m) z Hz) as [H1 H2].
      split; [exact H1 | intros; apply H2; lia].
Qed.

Lemma first_min_take (best x res : nat * Row) (g : DataFrame) (n : nat) :
  cost x < cost best ->
  first_min_at (x :: g) n res ->
  first_min_at (best :: x :: g) (S n) res.
Proof.
  intros Hlt [Hn Hmin]. split; [exact Hn |]. intros m z Hz.
  pose proof (Hmin 0%nat x eq_refl) as [Hx _].
  destruct m as [| m]; simpl in Hz.
  - injection Hz as <-.
    assert (cost res < cost best) by (eapply Qle_lt_trans; eassumption).
    split; [now apply Qlt_le_weak | auto].
  - destruct (Hmin m z Hz) as [H1 H2].
    split; [exact H1 | intros; apply H2; lia].
Qed.

Lemma argmin_from_first_min (g : DataFrame) (best : nat * Row) :
  exists n, first_min_at (best :: g) n (argmin_from best g).
Proof.
  revert best. induction g as [| x g IH]; intros best.
  - exists 0%nat. split; [reflexivity |].
    intros m z Hz. destruct m as [| m]; simpl in Hz.
    + injection Hz as <-. split; [apply Qle_refl | lia].
    + destruct m; discriminate.
  - simpl argmin_from. destruct (Qcompare (cost x) (cost best)) eqn:E.
    + destruct (IH best) as (n & Hn).
      eapply first_min_keep; [| exact Hn].
      apply Qge_alt. rewrite E. discriminate.
    + destruct (IH x) as (n & Hn). exists (S n).
      apply first_min_take; [now apply Qlt_alt | exact Hn].
    + destruct (IH best) as (n & Hn).
      eapply first_min_keep; [| exact Hn].
      apply Qge_alt. rewrite E. discriminate.
Qed.

(** The first minimum of the rows selected by [p], seen from the whole
    table: selection keeps the order of the rows. *)
Lemma filter_first_min (p : nat * Row -> bool) (l : DataFrame) (n : nat)
    (y : nat * Row) :
  first_min_at (List.filter p l) n y ->
  exists n',
    nth_error l n' = Some y /\ p y = true
    /\ forall (m : nat) (x : nat * Row),
         nth_error l m = Some x -> p x = true ->
         cost y <= cost x /\ ((m < n')%nat -> cost y < cost x).
Proof.
  revert n. induction l as [| a l IH]; intros n [Hn Hmin].
  - destruct n; discriminate.
  - simpl in Hn, Hmin. destruct (p a) eqn:Pa.
    + destruct n as [| n]; simpl in Hn.
      * injection Hn as Hy. exists 0%nat.
        split; [simpl; now rewrite Hy |]. split; [now rewrite <- Hy |].
        intros m x Hx Px. split; [| lia].
        assert (Hin : In x (a :: List.filter p l)).
        { apply nth_error_In in Hx. destruct Hx as [-> | Hx]; [now left |].
          right. apply filter_In. now split. }
        apply In_nth_error in Hin. destruct Hin as (j & Hj).
        apply (Hmin j x Hj).
      * destruct (IH n) as (n' & Hn' & Py & H').
        { split; [exact Hn |]. intros m x Hx.
          destruct (Hmin (S m) x Hx) as [H1 H2].
          split; [exact H1 | intros; apply H2; lia]. }
        exists (S n'). split; [exact Hn' |]. split; [exact Py |].
        intros m x Hx Px. destruct m as [| m]; simpl in Hx.
        -- injection Hx as <-. destruct (Hmin 0%nat a eq_refl) as [H1 H2].
           split; [exact H1 | intros _; apply H2; lia].
        -- destruct (H' m x Hx Px) as [H1 H2].
           split; [exact H1 | intros; apply H2; lia].
    + destruct (IH n (conj Hn Hmin)) as (n' & Hn' & Py & H').
      exists (S n'). split; [exact Hn' |]. split; [exact Py |].
      intros m x Hx Px. destruct m as [| m]; simpl in Hx.
      * injection Hx as <-. congruence.
      * destruct (H' m x Hx Px) as [H1 H2].
        split; [exact H1 | intros; apply H2; lia].
Qed.

(** With distinct labels [loc] finds one row per label. *)
Lemma loc_single (df : DataFrame) (y : nat * Row) :
  List.NoDup (map fst df) -> In y df ->
  List.filter (fun x => (fst x =? fst y)%nat) df = [y].
Proof.
  induction df as [| a df IH]; simpl; intros Hnd Hin; [destruct Hin |].
  inversion Hnd as [| ? ? Hna Hnd']; subst.
  destruct Hin as [-> | Hin].
  - rewrite Nat.eqb_refl. f_equal.
    destruct (List.filter (fun x => (fst x =? fst y)%nat) df) as [| x rest] eqn:E;
      [reflexivity | exfalso].
    assert (Hx : In x (List.filter (fun x => (fst x =? fst y)%nat) df))
      by (rewrite E; now left).
    apply filter_In in Hx. destruct Hx as [Hx Hl].
    apply Nat.eqb_eq in Hl. apply Hna. rewrite <- Hl. now apply in_map.
  - destruct (Nat.eqb_spec (fst a) (fst y)) as [e | ne].
    + exfalso. apply Hna. rewrite e. now apply in_map.
    + now apply IH.
Qed.

Lemma loc_rows (df ys : DataFrame) :
  List.NoDup (map fst df) -> (forall y, In y ys -> In y df) ->
  loc df (map fst ys) = inr ys.
Proof.
  intros Hnd Hall. unfold loc.
  assert (H : mapM (fun i =>
                      match List.filter (fun x => (fst x =? i)%nat) df with
                      | [] => raise (KeyError_label i)
                      | rows => ret rows
                      end) (map fst ys)
              = inr (map (fun y => [y]) ys)).
  { induction ys as [| y ys IH]; [reflexivity |].
    cbn [map mapM]. rewrite (loc_single df y Hnd) by (apply Hall; now left).
    cbn [bind ret raise]. rewrite IH by (intros; apply Hall; now right).
    reflexivity. }
  rewrite H. cbn [bind ret raise]. f_equal.
  clear. induction ys as [| y ys IH]; simpl; [reflexivity | now rewrite IH].
Qed.

Lemma combine_seq_nth_error {A} (l : list A) (s i : nat) :
  nth_error (combine (seq s (length l)) l) i
  = option_map (fun a => ((s + i)%nat, a)) (nth_error l i).
Proof.
  revert s i. induction l as [| a l IH]; intros s i; simpl.
  - now destruct i.
  - destruct i as [| i]; simpl.
    + now rewrite Nat.add_0_r.
    + rewrite IH. now rewrite Nat.add_succ_r.
Qed.

Lemma reset_index_nth_error (df : DataFrame) (i : nat) :
  nth_error (reset_index df) i
  = option_map (fun y => (i, snd y)) (nth_error df i).
Proof.
  unfold reset_index, read_csv. rewrite combine_seq_nth_error.
  rewrite nth_error_map. now destruct (nth_error df i).
Qed.

Lemma idxmin_groups (df : DataFrame) (keys : list Key) :
  (forall k, In k keys -> In k (group_keys df)) ->
  exists ys : DataFrame,
    mapM (fun kg : Key * DataFrame => idxmin (snd kg))
         (map (fun k => (k, get_group df k)) keys)
    = inr (map fst ys)
    /\ Forall2 (best_of df) keys ys.
Proof.
  induction keys as [| k keys IH]; intros Hkeys.
  - exists []. split; [reflexivity | constructor].
  - destruct IH as (ys & Hrun & Hys); [intros; apply Hkeys; now right |].
    pose proof (group_nonempty df k (Hkeys k (or_introl eq_refl))) as Hne.
    cbn [map mapM snd]. rewrite Hrun, get_group_cell_rows.
    unfold cell_rows in *.
    destruct (List.filter (in_cell k) df) as [| x g] eqn:E; [congruence |].
    cbn [idxmin bind ret raise]. rewrite idxmin_from_argmin.
    exists (argmin_from x g :: ys). split; [reflexivity |].
    constructor; [| exact Hys].
    destruct (argmin_from_first_min g x) as (n & Hn).
    rewrite <- E in Hn.
    destruct (filter_first_min _ _ _ _ Hn) as (n' & Hn' & Py & Hmin).
    split; [eapply nth_error_In; eassumption |]. split; [exact Py |].
    exists n', (fst (argmin_from x g)).
    rewrite <- surjective_pairing. split; [exact Hn' |].
    intros m z Hz Hc. apply (Hmin m z Hz).
    rewrite <- Hc. apply in_cell_compat.
    rewrite key_compare_antisym.
    apply in_cell_true in Py. now rewrite Py.
Qed.

Lemma best_df_rows (df : DataFrame) :
  List.NoDup (map fst df) ->
  exists ys : DataFrame,
    best_df df = inr (reset_index ys)
    /\ Forall2 (best_of df) (group_keys df) ys.
Proof.
  intros Hnd.
  destruct (idxmin_groups df (group_keys df) (fun k H => H)) as (ys & Hrun & Hys).
  exists ys. split; [| exact Hys].
  unfold best_df, groupby. rewrite Hrun. cbn [bind ret raise].
  rewrite (loc_rows df ys Hnd); [reflexivity |].
  intros y Hy. apply In_nth_error in Hy. destruct Hy as (i & Hi).
  rewrite <- lookup_nth_error in Hi.
  destruct (Forall2_lookup_r _ _ _ _ _ Hys Hi) as (k & _ & Hb & _).
  exact Hb.
Qed.

Lemma read_csv_labels (rows : list Row) :
  map fst (read_csv rows) = seq 0 (length rows).
Proof.
  unfold read_csv. generalize 0%nat.
  induction rows as [| r rows IH]; intros s; simpl; [reflexivity |].
  now rewrite IH.
Qed.

Lemma NoDup_map_filter {A B} (f : A -> B) (p : A -> bool) (l : list A) :
  List.NoDup (map f l) -> List.NoDup (map f (List.filter p l)).
Proof.
  induction l as [| a l IH]; simpl; intros H; [constructor |].
  inversion H as [| ? ? Hna Hnd]; subst.
  destruct (p a); simpl; [| now apply IH].
  constructor; [| now apply IH].
  intros Hin. apply Hna. apply in_map_iff in Hin.
  destruct Hin as (x & E & Hx). apply filter_In in Hx.
  rewrite <- E. apply in_map. apply Hx.
Qed.

(** The table that the driver gives to [average] and [best] has distinct
    labels. *)
Lemma successes_labels_NoDup (rows : list Row) :
  List.NoDup (map fst (successes (read_csv rows))).
Proof.
  apply NoDup_map_filter. rewrite read_csv_labels. apply List.seq_NoDup.
Qed.

Lemma best_row_at (df ys : DataFrame) (i : nat) (y : nat * Row) :
  Forall2 (best_of df) (group_keys df) ys ->
  nth_error (reset_index ys) i = Some y ->
  exists (y0 : nat * Row) (k : Key),
    y = (i, snd y0) /\ nth_error ys i = Some y0
    /\ nth_error (group_keys df) i = Some k /\ best_of df k y0.
Proof.
  intros Hys Hy. rewrite reset_index_nth_error in Hy.
  destruct (nth_error ys i) as [y0 |] eqn:E; [| discriminate].
  injection Hy as <-. rewrite <- lookup_nth_error in E.
  destruct (Forall2_lookup_r _ _ _ _ _ Hys E) as (k & Hk & Hb).
  rewrite lookup_nth_error in Hk. exists y0, k. auto.
Qed.

Lemma in_cell_of_best (k : Key) (y0 x : nat * Row) (i : nat) :
  in_cell k y0 = true -> in_cell (key_of (i, snd y0)) x = in_cell k x.
Proof.
  intros H. apply in_cell_compat.
  change (key_of (i, snd y0)) with (key_of y0). now apply in_cell_true.
Qed.

(** C3.  For every table whose index labels are distinct (as those of a
    table read from a file and filtered are), [best] returns a table in which
    every row is a whole record of the input that has the least
    relative_cost of its (cost_constraint_ratio, chain_strength) cell and is
    the first record of the cell to have it; every record of the input has
    its cell in the result, and the result has one row per cell.  A cell with
    the costs 5, 2, 8 gives the record with cost 2. *)
Theorem C3_best_first_minimum (df : DataFrame)
    (Hlabels : List.NoDup (map fst df)) :
  exists best : DataFrame,
    best_df df = inr best
    /\ (forall y, In y best -> first_minimum df (snd y))
    /\ (forall x, In x df ->
          exists y, In y best /\ in_cell (key_of y) x = true)
    /\ (forall (i j : nat) (y y' : nat * Row),
          nth_error best i = Some y -> nth_error best j = Some y' ->
          in_cell (key_of y) y' = true -> i = j)
    /\ (forall y, In y best ->
          map relative_cost (map snd (cell_rows df (key_of y))) = [5; 2; 8] ->
          relative_cost (snd y) = 2).
Proof.
  destruct (best_df_rows df Hlabels) as (ys & Hrun & Hys).
  exists (reset_index ys). split; [exact Hrun |].
  assert (Hmin : forall y, In y (reset_index ys) -> first_minimum df (snd y)).
  { intros y Hy. apply In_nth_error in Hy. destruct Hy as (i & Hi).
    destruct (best_row_at df ys i y Hys Hi) as (y0 & k & -> & _ & _ & Hb).
    apply Hb. }
  split; [exact Hmin |]. split; [| split].
  - intros x Hx. destruct (group_keys_cover df x Hx) as (k & Hk & Hc).
    apply In_nth_error in Hk. destruct Hk as (i & Hi).
    rewrite <- lookup_nth_error in Hi.
    destruct (Forall2_lookup_l _ _ _ _ _ Hys Hi) as (y0 & Hy0 & Hb).
    rewrite lookup_nth_error in Hy0.
    exists (i, snd y0). split.
    + apply (nth_error_In _ i). rewrite reset_index_nth_error, Hy0. reflexivity.
    + rewrite (in_cell_of_best k); [exact Hc | apply Hb].
  - intros i j y y' Hi Hj Hc.
    destruct (best_row_at df ys i y Hys Hi) as (y0 & k & -> & _ & Hk & Hb).
    destruct (best_row_at df ys j y' Hys Hj) as (y0' & k' & -> & _ & Hk' & Hb').
    rewrite (in_cell_of_best k) in Hc by apply Hb.
    assert (k = k').
    { apply (group_keys_unique df k k' y0').
      - eapply nth_error_In; eassumption.
      - eapply nth_error_In; eassumption.
      - exact Hc.
      - apply Hb'. }
    subst k'.
    eapply (sorted_eq_same_index key_compare key_compare_antisym).
    + apply group_keys_sorted.
    + exact Hk.
    + exact Hk'.
    + apply key_compare_refl.
  - intros y Hy E.
    destruct (Hmin y Hy) as (n & label & Hn & Hle).
    change (key_of (label, snd y)) with (key_of y) in Hle.
    assert (Hself : In (label, snd y) (cell_rows df (key_of y))).
    { apply filter_In. split; [eapply nth_error_In; eassumption |].
      apply in_cell_true. change (key_of (label, snd y)) with (key_of y).
      apply key_compare_refl. }
    assert (Hcost : In (relative_cost (snd y)) [5; 2; 8]).
    { rewrite <- E.
      change (relative_cost (snd y))
        with (relative_cost (snd (label, snd y))).
      now apply in_map, in_map. }
    assert (Htwo : relative_cost (snd y) <= 2).
    { assert (H2 : In 2 (map relative_cost (map snd (cell_rows df (key_of y)))))
        by (rewrite E; simpl; tauto).
      apply in_map_iff in H2. destruct H2 as (r & Hr & H2).
      apply in_map_iff in H2. destruct H2 as (x & Hx & H2).
      apply filter_In in H2. destruct H2 as [H2 Hc].
      apply In_nth_error in H2. destruct H2 as (m & Hm).
      destruct (Hle m x Hm Hc) as [H _].
      unfold cost in H. now rewrite Hx, Hr in H. }
    simpl in Hcost.
    destruct Hcost as [H | [H | [H | []]]]; rewrite <- H in *;
      try reflexivity; exfalso; revert Htwo; unfold Qle; simpl; lia.
Qed.

Lemma C3_best_first_minimum_witness :
  exists best : DataFrame,
    best_df (successes (read_csv trials_5_2_8)) = inr best
    /\ best = [(0%nat, row 0.5 1 1 2 [2; 1]%Z)].
Proof.
  destruct (C3_best_first_minimum (successes (read_csv trials_5_2_8)))
    as (best & Hrun & _).
  - vm_compute. repeat (constructor; [simpl; intuition lia |]). constructor.
  - exists best. split; [exact Hrun |].
    vm_compute in Hrun. injection Hrun as Hbest. symmetry. exact Hbest.
Defined.

Lemma filter_filter_andb {A} (p q : A -> bool) (l : list A) :
  List.filter p (List.filter q l) = List.filter (fun x => p x && q x) l.
Proof.
  induction l as [| a l IH]; simpl; [reflexivity |].
  destruct (q a) eqn:Q; simpl.
  - rewrite andb_true_r. destruct (p a); now rewrite IH.
  - rewrite andb_false_r. exact IH.
Qed.

Lemma failed_routes_count_In (df : DataFrame) (k : Key) (n : nat) :
  In (k, n) (failed_routes_count df)
  <-> In k (group_keys df) /\ n = length (cell_rows df k).
Proof.
  unfold failed_routes_count, groupby. rewrite map_map. cbn [fst snd].
  rewrite in_map_iff. split.
  - intros (k' & E & Hk). injection E as <- <-.
    now rewrite get_group_cell_rows.
  - intros [Hk ->]. exists k. now rewrite get_group_cell_rows.
Qed.

(** A table with one row per key of a [groupby] pivots without an error. *)
Lemma long_of_no_duplicates {V} (value : V -> Q) (t : list (Key * V)) :
  StronglySorted (cmp_lt key_compare) (map fst t) ->
  has_duplicate_entries (long_of value t) = false.
Proof.
  intros Hs. apply not_true_is_false. intros H.
  apply has_duplicate_entries_true in H.
  destruct H as (n & m & x & y & Hlt & Hn & Hm & H1 & H2).
  unfold long_of in Hn, Hm. rewrite nth_error_map in Hn, Hm.
  match type of Hn with
  | option_map _ ?o = _ => destruct o as [[k v] |] eqn:En; [| discriminate Hn]
  end.
  match type of Hm with
  | option_map _ ?o = _ => destruct o as [[k' v'] |] eqn:Em; [| discriminate Hm]
  end.
  injection Hn as <-. injection Hm as <-. simpl in H1, H2.
  assert (n = m); [| lia].
  eapply (sorted_eq_same_index key_compare key_compare_antisym _ n m k k' Hs).
  - exact (map_nth_error fst n t En).
  - exact (map_nth_error fst m t Em).
  - apply key_compare_Eq. now split.
Qed.

Lemma failed_routes_In (df : DataFrame) (x : nat * Row) :
  In x (failed_routes df) <-> In x df /\ relative_cost (snd x) == -1.
Proof.
  unfold failed_routes. rewrite filter_In. unfold is_failure, cost.
  now rewrite Qeq_bool_iff.
Qed.

(** C4.  For every raw table, [failed_occurences] keeps exactly the records
    whose relative_cost is -1, groups them by (cost_constraint_ratio,
    chain_strength) and counts them: every row of the failure table holds the
    number of failing records of its cell, which is not zero, every failing
    record has its cell in the table, and the table has one row per cell.
    With no failing record in the whole table nothing is written; otherwise
    exactly one image is written, the heatmap of the failure table. *)
Theorem C4_failures (df : DataFrame) (output_file : string) :
  (forall x, In x (failed_routes df)
             <-> In x df /\ relative_cost (snd x) == -1)
  /\ (forall k n,
        In (k, n) (failed_routes_count (failed_routes df)) ->
        (0 < n)%nat
        /\ n = length (List.filter (fun x => in_cell k x && is_failure x) df))
  /\ (forall x, In x df -> relative_cost (snd x) == -1 ->
        exists k n, In (k, n) (failed_routes_count (failed_routes df))
                    /\ in_cell k x = true)
  /\ (forall k k' n n' x,
        In (k, n) (failed_routes_count (failed_routes df)) ->
        In (k', n') (failed_routes_count (failed_routes df)) ->
        in_cell k x = true -> in_cell k' x = true -> (k, n) = (k', n'))
  /\ ((forall x, In x df -> ~ relative_cost (snd x) == -1) ->
      failed_occurences df output_file = ([], inr tt))
  /\ ((exists x, In x df /\ relative_cost (snd x) == -1) ->
      exists g : Grid Q,
        pivot (long_of (fun n => inject_Z (Z.of_nat n))
                       (failed_routes_count (failed_routes df))) = inr g
        /\ failed_occurences df output_file
           = ([PlotFile
                 (Heatmap (data_path
                             (String.append "fails"
                                (String.append "_heatmap_" output_file))) g)],
              inr tt)).
Proof.
  split; [exact (failed_routes_In df) |].
  split; [| split; [| split; [| split]]].
  - intros k n H. apply failed_routes_count_In in H. destruct H as [Hk ->].
    split.
    + pose proof (group_nonempty _ _ Hk) as Hne.
      destruct (cell_rows (failed_routes df) k); [congruence | simpl; lia].
    + unfold cell_rows, failed_routes. now rewrite filter_filter_andb.
  - intros x Hx Hc.
    destruct (group_keys_cover (failed_routes df) x) as (k & Hk & E).
    { now apply failed_routes_In. }
    exists k, (length (cell_rows (failed_routes df) k)).
    split; [| exact E]. apply failed_routes_count_In. now split.
  - intros k k' n n' x H H' E E'.
    apply failed_routes_count_In in H, H'.
    destruct H as [Hk ->], H' as [Hk' ->].
    assert (k = k') by (eapply group_keys_unique; eassumption).
    now subst.
  - intros Hnone. unfold failed_occurences.
    destruct (failed_routes df) as [| x rest] eqn:E; [reflexivity |].
    exfalso. assert (Hx : In x (failed_routes df)) by (rewrite E; now left).
    apply failed_routes_In in Hx. destruct Hx as [Hx Hc].
    exact (Hnone x Hx Hc).
  - intros (x & Hx & Hc).
    assert (Hin : In x (failed_routes df)) by now apply failed_routes_In.
    assert (Hnd : has_duplicate_entries
                    (long_of (fun n => inject_Z (Z.of_nat n))
                             (failed_routes_count (failed_routes df)))
                  = false).
    { apply long_of_no_duplicates.
      unfold failed_routes_count, groupby. rewrite !map_map. cbn [fst].
      rewrite map_id. apply group_keys_sorted. }
    unfold failed_occurences.
    destruct (failed_routes df) as [| x0 rest] eqn:E; [destruct Hin |].
    unfold plot, save_heatmap, pivot. rewrite Hnd. cbn [bind ret raise fst snd].
    eexists. split; reflexivity.
Qed.

Lemma three_failures_count :
  failed_routes_count (failed_routes (read_csv three_failures))
  = [((0.5, 1), 3%nat)].
Proof. reflexivity. Qed.

Lemma C4_failures_witness :
  (exists g : Grid Q,
     pivot (long_of (fun n => inject_Z (Z.of_nat n))
              (failed_routes_count (failed_routes (read_csv three_failures))))
     = inr g
     /\ failed_occurences (read_csv three_failures) "out"
        = ([PlotFile (Heatmap "data/fails_heatmap_out" g)], inr tt))
  /\ failed_occurences (read_csv no_failures) "out" = ([], inr tt).
Proof.
  split.
  - apply (C4_failures (read_csv three_failures) "out").
    exists (0%nat, row 0.5 1 0 (-1) []). split; [simpl; tauto | reflexivity].
  - apply (C4_failures (read_csv no_failures) "out").
    simpl. intros x [<- | [<- | []]]; simpl; unfold Qeq; simpl; lia.
Defined.

Lemma sort_unique_all_eq {A} (cmp : A -> A -> comparison) (a : A) (l : list A) :
  (forall b, In b l -> cmp b a = Eq) -> sort_unique cmp (a :: l) = [a].
Proof.
  unfold sort_unique. cbn [fold_left insert_unique].
  induction l as [| b l IH]; intros H; [reflexivity |].
  cbn [fold_left insert_unique]. rewrite (H b) by now left.
  apply IH. intros; apply H; now right.
Qed.

Lemma read_csv_In (rows : list Row) (r : Row) :
  In r rows <-> exists label, In (label, r) (read_csv rows).
Proof.
  unfold read_csv. split.
  - intros H. apply In_nth_error in H. destruct H as (i & Hi).
    exists i. apply (nth_error_In _ i).
    rewrite combine_seq_nth_error, Hi. reflexivity.
  - intros (label & H). eapply in_combine_r; eassumption.
Qed.

(** When the successful trials all lie in one cell, the table of averages
    has one row, its pivot is a grid of one row and one column, and the driver
    stops in the contour plot of the averages: only the average heatmap has
    been written. *)
Lemma post_process_single_success_cell (rows : list Row) (output_file : string)
    (locations : list route_storer.Order) (k : Key) :
  (exists r, In r rows /\ ~ relative_cost r == -1) ->
  (forall r, In r rows -> ~ relative_cost r == -1 ->
             cost_constraint_ratio r == fst k /\ chain_strength r == snd k) ->
  exists g : Grid Q,
    length (g_index g) = 1%nat /\ length (g_columns g) = 1%nat
    /\ post_process rows output_file locations
       = ([PlotFile
             (Heatmap (data_path
                         (String.append "avg"
                            (String.append "_heatmap_" output_file))) g)],
          inl (TypeError_contour_shape 1 1)).
Proof.
  intros (r0 & Hr0 & Hs0) Hcell.
  unfold post_process.
  assert (Hin : forall x, In x (successes (read_csv rows)) ->
                          key_compare (key_of x) k = Eq).
  { intros x Hx. apply filter_In in Hx. destruct Hx as [Hx Hf].
    apply key_compare_Eq. unfold key_of. cbn [fst snd].
    apply Hcell.
    - apply read_csv_In. exists (fst x). now rewrite <- surjective_pairing.
    - intros E. apply Qeq_bool_iff in E. unfold is_failure, cost in Hf.
      rewrite E in Hf. discriminate Hf. }
  destruct (successes (read_csv rows)) as [| x0 rest] eqn:E.
  { exfalso. apply read_csv_In in Hr0. destruct Hr0 as (label & Hl).
    assert (H : In (label, r0) (successes (read_csv rows))).
    { apply filter_In. split; [exact Hl |].
      unfold is_failure, cost. cbn [snd].
      destruct (Qeq_bool (relative_cost r0) (-1)) eqn:Q; [| reflexivity].
      apply Qeq_bool_iff in Q. contradiction. }
    now rewrite E in H. }
  assert (Hkeys : group_keys (x0 :: rest) = [key_of x0]).
  { unfold group_keys. cbn [map]. apply sort_unique_all_eq.
    intros b Hb. apply in_map_iff in Hb. destruct Hb as (x & <- & Hx).
    rewrite (key_compare_eq_compat _ _ _ (Hin x (or_intror Hx))).
    rewrite key_compare_antisym, (Hin x0 (or_introl eq_refl)). reflexivity. }
  unfold average, average_df, groupby. rewrite Hkeys.
  cbn [map long_of fst snd].
  unfold plot, save_heatmap, save_contour_plot, pivot.
  cbn [has_duplicate_entries existsb orb map fst snd].
  unfold sort_unique. cbn [fold_left insert_unique].
  eexists. split; [| split]; [| | reflexivity]; reflexivity.
Qed.

(** C8 on the code.  For every input table whose successful trials lie in
    one (cost_constraint_ratio, chain_strength) cell, as in the table of C8,
    the driver writes the heatmap of the averages and then raises in
    [plt.contourf], whose grid has one row and one column: no contour image,
    no best or failure heatmap and no route image is written. *)
Theorem C8_driver_stops_at_contour (rows : list Row) (output_file : string)
    (locations : list route_storer.Order) (k : Key)
    (Hsome : exists r, In r rows /\ ~ relative_cost r == -1)
    (Hcell : forall r, In r rows -> ~ relative_cost r == -1 ->
               cost_constraint_ratio r == fst k /\ chain_strength r == snd k) :
  exists g : Grid Q,
    fst (post_process rows output_file locations)
    = [PlotFile
         (Heatmap (data_path
                     (String.append "avg"
                        (String.append "_heatmap_" output_file))) g)]
    /\ snd (post_process rows output_file locations)
       = inl (TypeError_contour_shape 1 1).
Proof.
  destruct (post_process_single_success_cell rows output_file locations k
              Hsome Hcell) as (g & _ & _ & Hrun).
  exists g. now rewrite Hrun.
Qed.

Lemma C8_driver_stops_at_contour_witness :
  post_process two_cells "out" two_locations
  = ([PlotFile
        (Heatmap "data/avg_heatmap_out"
           {| g_index := [0.5]; g_columns := [1];
              g_values := [[Some 15]] |})],
     inl (TypeError_contour_shape 1 1)).
Proof.
  destruct (C8_driver_stops_at_contour two_cells "out" two_locations (0.5, 1))
    as (g & Hfiles & Hend).
  - exists (row 0.5 1 0 10 [1; 2]%Z). split; [simpl; tauto |].
    simpl. unfold Qeq. simpl. lia.
  - simpl. intros r [<- | [<- | [<- | []]]] H; simpl;
      try (split; reflexivity).
    exfalso. apply H. reflexivity.
  - reflexivity.
Defined.

(** With two ratios and two strengths the grids have two rows and two
    columns and the driver runs to its end: three heatmaps, two contour
    plots and a route image per row of the table. *)
Lemma post_process_two_by_two :
  map written_to (fst (post_process two_by_two "out" two_locations))
  = [ "data/avg_heatmap_out"; "data/avg_contours_out";
      "data/best_heatmap_out"; "data/best_contours_out";
      "data/fails_heatmap_out";
      "routes"; "routes"; "routes"; "routes"; "routes" ]%string
  /\ snd (post_process two_by_two "out" two_locations) = inr tt.
Proof. split; vm_compute; reflexivity. Qed.

End AggregatorProperties.

(** * Further properties of the projection and of the route renderer *)
Section RouteExtras.
Import route_storer.
Local Open Scope R_scope.







Lemma find_app_first {A} (f : A -> bool) (l1 l2 : list A) :
  find f (l1 ++ l2)
  = match find f l1 with Some x => Some x | None => find f l2 end.
Proof.
  induction l1 as [| a l1 IH]; simpl; [reflexivity |].
  now destruct (f a).
Qed.

Lemma orders_fold_lookup (locations : list Order) (d : gmap Z LatLon) (k : Z) :
  foldl (fun d order =>
           <[order_id order := {| d_lat := lat order; d_lon := lon order |}]> d)
        d locations !! k
  = match last_with_id locations k with
    | Some o => Some (latlon_of o)
    | None => d !! k
    end.
Proof.
  unfold last_with_id. revert d.
  induction locations as [| o locations IH]; intros d; [reflexivity |].
  cbn [foldl rev]. rewrite IH, find_app_first.
  destruct (find (fun o0 => Z.eqb (order_id o0) k) (rev locations));
    [reflexivity |].
  cbn [find]. destruct (Z.eqb_spec (order_id o) k) as [E | E].
  - rewrite E. now rewrite lookup_insert_eq.
  - now rewrite lookup_insert_ne.
Qed.

(** [__reformat_locations] returns the projected point of every entry of the
    locations, in order and with repeated identifiers kept, and a dictionary
    in which an identifier that occurs several times has the coordinates of
    its last entry; an identifier that does not occur is not a key. *)
Theorem reformat_locations_last_wins (locations : list Order) :
  let '(lats, longs, orders) := __reformat_locations locations in
  lats = map (fun o => snd (project_point (latlon_of o))) locations
  /\ longs = map (fun o => fst (project_point (latlon_of o))) locations
  /\ forall k : Z,
       orders !! k = option_map latlon_of (last_with_id locations k).
Proof.
  unfold __reformat_locations. rewrite project_pair.
  split; [| split].
  - now rewrite map_map.
  - now rewrite map_map.
  - intros k. rewrite orders_fold_lookup, lookup_empty.
    now destruct (last_with_id locations k).
Qed.

(** The first identifier of a route that is not in the dictionary is the one
    the first loop raises [KeyError] on, when the route has at least two
    stops. *)
Lemma add_route_first_unknown (d : gmap Z LatLon) (pre post : list Z) (k : Z) :
  Forall (fun a => is_Some (d !! a)) pre ->
  d !! k = None ->
  (2 <= length (pre ++ k :: post))%nat ->
  forall acc, add_route d acc (pre ++ k :: post) = inl (KeyError k).
Proof.
  revert post. induction pre as [| a [| b pre] IH]; intros post Hpre Hk Hlen acc.
  - destruct post as [| b post]; [simpl in Hlen; lia |].
    cbn [app add_route]. unfold add_edge.
    now rewrite (getitem_None _ _ Hk).
  - inversion Hpre as [| ? ? [pa Ha] _]; subst.
    cbn [app add_route]. unfold add_edge.
    rewrite (getitem_Some _ _ _ Ha). cbn [bind ret raise].
    now rewrite (getitem_None _ _ Hk).
  - inversion Hpre as [| ? ? [pa Ha] Hpre']; subst.
    pose proof Hpre' as Hpre''.
    inversion Hpre'' as [| ? ? [pb Hb] _]; subst.
    change (add_route d acc ((a :: b :: pre) ++ k :: post))
      with (bind (add_edge d acc a b)
              (fun acc' => add_route d acc' ((b :: pre) ++ k :: post))).
    unfold add_edge.
    rewrite (getitem_Some _ _ _ Ha), (getitem_Some _ _ _ Hb).
    cbn [bind ret raise]. apply IH; try assumption.
    simpl. rewrite length_app. simpl. lia.
Qed.

(** The [KeyError] of a rendering names the first identifier of the route, in
    route order, that is not in the Locations Collection: for a route of at
    least two stops whose stops before [k] are all known and whose stop [k]
    is not, [create_graph] raises [KeyError k]. *)
Theorem create_graph_first_unknown {N} (locations : list Order)
    (pre post : list Z) (k : Z) (folder_name : string) (file_name : N)
    (Hpre : forall id, In id pre -> known locations id)
    (Hk : ~ known locations k)
    (Hlen : (2 <= length (pre ++ k :: post))%nat) :
  create_graph locations (pre ++ k :: post) folder_name file_name
  = inl (KeyError k).
Proof.
  rewrite create_graph_unfold. unfold __add_lines. cbn [foldM].
  rewrite add_route_first_unknown; [reflexivity | | | exact Hlen].
  - now apply known_all_is_Some.
  - apply eq_None_not_Some. now rewrite orders_of_is_Some.
Qed.

Lemma create_graph_first_unknown_witness :
  create_graph two_locations ([1%Z; 2%Z] ++ 7%Z :: [9%Z; 1%Z])
               "routes"%string "r"%string
  = inl (KeyError 7).
Proof.
  apply (create_graph_first_unknown two_locations [1%Z; 2%Z] [9%Z; 1%Z] 7%Z).
  - exact two_locations_known.
  - unfold known. simpl. intros [H | [H | []]]; discriminate H.
  - simpl. lia.
Defined.

Lemma extend_extend (acc : Ends) (ps qs : list (LatLon * LatLon)) :
  extend (extend acc ps) qs = extend acc (ps ++ qs).
Proof.
  unfold extend. cbn [start_longs start_lat end_longs end_lats].
  now rewrite !map_app, !app_assoc.
Qed.

Lemma add_routes_known (d : gmap Z LatLon) (routes : list (list Z)) :
  Forall (Forall (fun k => is_Some (d !! k))) routes ->
  forall acc, exists pss : list (list (LatLon * LatLon)),
    Forall2 (fun route ps => Forall2 (looked_up d) (edges route) ps) routes pss
    /\ foldM (add_route d) acc routes = inr (extend acc (concat pss)).
Proof.
  induction routes as [| route routes IH]; intros Hall acc.
  - exists []. split; [constructor | now rewrite extend_nil].
  - inversion Hall as [| ? ? Hroute Hrest]; subst.
    destruct (add_route_known d route Hroute acc) as (ps & Hps & Hrun).
    destruct (IH Hrest (extend acc ps)) as (pss & Hpss & Hruns).
    exists (ps :: pss). split; [now constructor |].
    cbn [foldM concat]. rewrite Hrun. cbn [bind ret raise].
    rewrite Hruns. now rewrite extend_extend.
Qed.

Lemma add_lines_of_pairs (d : gmap Z LatLon) (routes : list (list Z))
    (ps : list (LatLon * LatLon)) :
  foldM (add_route d) no_ends routes = inr (extend no_ends ps) ->
  __add_lines routes d = inr (map arrow_of ps).
Proof.
  intros Hrun. unfold __add_lines. rewrite Hrun. cbn [bind ret raise].
  rewrite !project_pair.
  unfold extend, no_ends. cbn [start_longs start_lat end_longs end_lats app].
  rewrite !length_map.
  exact (annotate_all ps []).
Qed.

(** [__add_lines] on several routes, every stop of which is in the
    dictionary, draws the arrows of the first route, then those of the
    second, and so on: each route gives the arrows it gives alone, and no
    arrow joins the last stop of a route to the first stop of the next. *)
Theorem add_lines_routes_concat (d : gmap Z LatLon) (routes : list (list Z))
    (Hall : Forall (Forall (fun k => is_Some (d !! k))) routes) :
  exists drawn : list (list Arrow),
    Forall2 (fun route a => __add_lines [route] d = inr a
                            /\ length a = (length route - 1)%nat)
            routes drawn
    /\ __add_lines routes d = inr (concat drawn).
Proof.
  destruct (add_routes_known d routes Hall no_ends) as (pss & Hpss & Hrun).
  exists (map (map arrow_of) pss). split.
  - clear Hrun. induction Hpss as [| route ps routes pss Hps Hpss IH];
      [constructor |].
    inversion Hall as [| ? ? Hroute Hrest]; subst.
    cbn [map]. constructor; [| now apply IH].
    destruct (add_route_known d route Hroute no_ends) as (ps' & Hps' & Hrun').
    split.
    + rewrite (add_lines_of_pairs d [route] ps').
      * f_equal. f_equal.
        clear - Hps Hps'. revert ps' Hps'.
        induction Hps as [| e p es ps [H1 H2] Hps IH]; intros ps' Hps';
          inversion Hps' as [| ? p' ? ps'' [H1' H2'] Hps'']; subst;
          [reflexivity |].
        f_equal; [| now apply IH].
        destruct p, p'. simpl in *. congruence.
      * cbn [foldM]. rewrite Hrun'. reflexivity.
    + rewrite length_map, <- edges_length. symmetry.
      eapply Forall2_length; eassumption.
  - rewrite (add_lines_of_pairs d routes (concat pss) Hrun).
    f_equal. clear. induction pss as [| ps pss IH]; [reflexivity |].
    cbn [concat map]. now rewrite map_app, IH.
Qed.

Lemma add_lines_routes_concat_witness :
  exists drawn : list (list Arrow),
    Forall2 (fun route a =>
               __add_lines [route] (orders_of two_locations) = inr a
               /\ length a = (length route - 1)%nat)
            [[1%Z; 2%Z]; [2%Z; 1%Z; 2%Z]] drawn
    /\ __add_lines [[1%Z; 2%Z]; [2%Z; 1%Z; 2%Z]] (orders_of two_locations)
       = inr (concat drawn).
Proof.
  apply (add_lines_routes_concat (orders_of two_locations)
           [[1%Z; 2%Z]; [2%Z; 1%Z; 2%Z]]).
  repeat (constructor; try (eexists; reflexivity)).
Defined.

End RouteExtras.

(** * Further properties of the pivot and of the plotters *)
Section PlotterExtras.
Import graph_storer.
Local Open Scope Q_scope.

Lemma sort_unique_two (l : list Q) :
  (2 <= length (sort_unique Qcompare l))%nat <-> two_values l.
Proof.
  pose proof (sort_unique_sorted Qcompare Qcompare_antisym' Qcompare_lt_trans l)
    as Hs.
  split.
  - intros Hlen.
    destruct (sort_unique Qcompare l) as [| a [| b rest]] eqn:E;
      try (simpl in Hlen; lia).
    exists a, b. repeat split.
    + apply (sort_unique_In Qcompare). rewrite E. now left.
    + apply (sort_unique_In Qcompare). rewrite E. right. now left.
    + inversion Hs as [| ? ? _ Ha]; subst.
      inversion Ha as [| ? ? Hab _]; subst.
      unfold cmp_lt in Hab. intros Heq. apply Qeq_alt in Heq. congruence.
  - intros (a & b & Ha & Hb & Hne).
    destruct (sort_unique_represents Qcompare Qcompare_refl l a Ha)
      as (a' & Ha' & Ea).
    destruct (sort_unique_represents Qcompare Qcompare_refl l b Hb)
      as (b' & Hb' & Eb).
    apply Qeq_alt in Ea, Eb.
    destruct (sort_unique Qcompare l) as [| c [| c' rest]];
      [destruct Ha' | | simpl; lia].
    exfalso. apply Hne.
    destruct Ha' as [<- | []], Hb' as [<- | []].
    now rewrite Ea, Eb.
Qed.

(** C7 gives the cells that hold the rows of the table; conversely the grid
    of a pivot holds nothing else.  It is rectangular, its labels are values
    of the table, a cell that holds a value holds the value of a row of the
    table with the labels of the cell, and a cell is empty only when the table
    has no row with its labels. *)
Theorem pivot_cells_from_rows {V} (df : Long V) (g : Grid V)
    (Hrun : pivot df = inr g) :
  length (g_values g) = length (g_index g)
  /\ (forall cells, In cells (g_values g) ->
        length cells = length (g_columns g))
  /\ (forall i, In i (g_index g) -> In i (index_values df))
  /\ (forall c, In c (g_columns g) -> In c (column_values df))
  /\ (forall (a b : nat) (v : V),
        grid_at g a b = Some (Some v) ->
        exists (i c : Q) (x : Q * Q * V),
          nth_error (g_index g) a = Some i
          /\ nth_error (g_columns g) b = Some c
          /\ In x df /\ fst (fst x) == i /\ snd (fst x) == c /\ snd x = v)
  /\ (forall (a b : nat),
        grid_at g a b = Some None ->
        exists (i c : Q),
          nth_error (g_index g) a = Some i
          /\ nth_error (g_columns g) b = Some c
          /\ forall x, In x df -> ~ (fst (fst x) == i /\ snd (fst x) == c)).
Proof.
  unfold pivot in Hrun.
  destruct (has_duplicate_entries df); [discriminate Hrun |].
  injection Hrun as <-. cbn [g_index g_columns g_values].
  split; [apply length_map |].
  split; [| split; [| split; [| split]]].
  - intros cells H. apply in_map_iff in H. destruct H as (i & <- & _).
    apply length_map.
  - intros i. apply sort_unique_In.
  - intros c. apply sort_unique_In.
  - intros a b v H. unfold grid_at in H. cbn [g_values] in H.
    rewrite nth_error_map in H.
    destruct (nth_error _ a) as [i |] eqn:Ei; [| discriminate H].
    cbn [option_map] in H. rewrite nth_error_map in H.
    destruct (nth_error _ b) as [c |] eqn:Ec; [| discriminate H].
    cbn [option_map] in H. injection H as H. unfold cell in H.
    destruct (find (at_cell i c) df) as [x |] eqn:Ef; [| discriminate H].
    injection H as <-. apply find_some in Ef. destruct Ef as [Hx Hc].
    apply at_cell_true in Hc. exists i, c, x. tauto.
  - intros a b H. unfold grid_at in H. cbn [g_values] in H.
    rewrite nth_error_map in H.
    destruct (nth_error _ a) as [i |] eqn:Ei; [| discriminate H].
    cbn [option_map] in H. rewrite nth_error_map in H.
    destruct (nth_error _ b) as [c |] eqn:Ec; [| discriminate H].
    cbn [option_map] in H. injection H as H. unfold cell in H.
    destruct (find (at_cell i c) df) as [x |] eqn:Ef; [discriminate H |].
    exists i, c. repeat split; auto.
    intros x Hx Hc. apply at_cell_true in Hc.
    pose proof (find_none _ _ Ef x Hx). congruence.
Qed.

Lemma pivot_cells_from_rows_witness :
  exists (i c : Q) (x : Q * Q * Q),
    nth_error [1; 2] 1 = Some i /\ nth_error [3; 4] 1 = Some c
    /\ In x [(2, 4, 7); (1, 3, 5)]
    /\ fst (fst x) == i /\ snd (fst x) == c /\ snd x = 7.
Proof.
  destruct (pivot_cells_from_rows [(2, 4, 7); (1, 3, 5)]
              {| g_index := [1; 2]; g_columns := [3; 4];
                 g_values := [[Some 5; None]; [None; Some 7]] |} eq_refl)
    as (_ & _ & _ & _ & Hcell & _).
  exact (Hcell 1%nat 1%nat 7 eq_refl).
Defined.

(** [save_contour_plot] writes its image exactly for the tables without a
    duplicate (index, column) pair that have two different index values and
    two different column values; for these [save_heatmap] writes the same
    grid.  On a table with rows and without duplicates that lacks two
    different values on an axis it raises the TypeError of [plt.contourf]
    although [save_heatmap] writes its image, and on a table with duplicates
    both raise the ValueError of the pivot. *)
Theorem save_contour_plot_outcome (df : Long Q) (file_parts : string * string) :
  (duplicate_entries df ->
   save_contour_plot df file_parts = inl ValueError_duplicate_entries
   /\ save_heatmap df file_parts = inl ValueError_duplicate_entries)
  /\ (~ duplicate_entries df -> df <> [] ->
      exists g : Grid Q,
        pivot df = inr g
        /\ save_heatmap df file_parts
           = inr (Heatmap
                    (data_path (String.append (fst file_parts)
                                  (String.append "_heatmap_" (snd file_parts))))
                    g)
        /\ ((two_values (index_values df) /\ two_values (column_values df)) ->
            save_contour_plot df file_parts
            = inr (Contour
                     (data_path (String.append (fst file_parts)
                                   (String.append "_contours_" (snd file_parts))))
                     g))
        /\ (~ (two_values (index_values df) /\ two_values (column_values df)) ->
            exists rows cols : nat,
              ((rows < 2)%nat \/ (cols < 2)%nat)
              /\ save_contour_plot df file_parts
                 = inl (TypeError_contour_shape rows cols))).
Proof.
  split.
  - intros H. apply has_duplicate_entries_true in H.
    unfold save_contour_plot, save_heatmap, pivot. rewrite H. now split.
  - intros H _. rewrite <- has_duplicate_entries_true in H.
    apply not_true_is_false in H.
    unfold save_contour_plot, save_heatmap, pivot. rewrite H.
    cbn [bind ret raise]. unfold contourf. cbn [g_index g_columns].
    eexists. split; [reflexivity |]. split; [reflexivity |].
    fold (index_values df) (column_values df).
    rewrite <- !sort_unique_two.
    destruct (Nat.ltb_spec (length (sort_unique Qcompare (index_values df))) 2)
      as [Hr | Hr];
      destruct (Nat.ltb_spec (length (sort_unique Qcompare (column_values df))) 2)
        as [Hc | Hc]; cbn [orb bind ret raise]; split;
      try (intros [? ?]; lia); try (intros _; reflexivity);
      try (intros Hn; exfalso; apply Hn; split; assumption);
      intros _; do 2 eexists; (split; [| reflexivity]); lia.
Qed.

Lemma save_contour_plot_outcome_witness :
  (save_contour_plot [(1, 1, 5); (1, 1, 7)] ("avg", "out")%string
   = inl ValueError_duplicate_entries
   /\ save_heatmap [(1, 1, 5); (1, 1, 7)] ("avg", "out")%string
      = inl ValueError_duplicate_entries)
  /\ exists g : Grid Q,
       pivot [(1, 1, 5); (1, 2, 7); (2, 1, 6)] = inr g
       /\ save_heatmap [(1, 1, 5); (1, 2, 7); (2, 1, 6)] ("avg", "out")%string
          = inr (Heatmap "data/avg_heatmap_out" g)
       /\ save_contour_plot [(1, 1, 5); (1, 2, 7); (2, 1, 6)]
            ("avg", "out")%string
          = inr (Contour "data/avg_contours_out" g).
Proof.
  split.
  - apply (save_contour_plot_outcome [(1, 1, 5); (1, 1, 7)]).
    exists 0%nat, 1%nat, (1, 1, 5), (1, 1, 7). repeat split; auto.
  - destruct (save_contour_plot_outcome [(1, 1, 5); (1, 2, 7); (2, 1, 6)]
                ("avg", "out")%string) as [_ H].
    destruct H as (g & Hg & Hh & Hc & _).
    + rewrite <- has_duplicate_entries_true. vm_compute. discriminate.
    + discriminate.
    + exists g. split; [exact Hg |]. split; [exact Hh |].
      apply Hc. split.
      * exists 1, 2. simpl. repeat split; auto.
        unfold Qeq. simpl. lia.
      * exists 1, 2. simpl. repeat split; auto.
        unfold Qeq. simpl. lia.
Defined.

End PlotterExtras.

(** * Further properties of the aggregation *)
Section AggregatorExtras.
Import graph_storer post_processing.
Local Open Scope Q_scope.

Lemma key_compare_Lt (a b : Key) : key_compare a b = Lt <-> key_lt a b.
Proof.
  unfold key_compare, key_lt.
  destruct (Qcompare_spec (fst a) (fst b)) as [E | L | G].
  - rewrite <- Qlt_alt. split; [tauto |]. intros [H | [_ H]]; [| exact H].
    rewrite E in H. now apply Qlt_irrefl in H.
  - split; [tauto | reflexivity].
  - split; [discriminate |]. intros [H | [H _]].
    + exfalso. exact (Qlt_irrefl _ (Qlt_trans _ _ _ H G)).
    + rewrite H in G. now apply Qlt_irrefl in G.
Qed.

Lemma sorted_key_lt (l : list Key) :
  StronglySorted (cmp_lt key_compare) l -> StronglySorted key_lt l.
Proof.
  induction 1 as [| a l Hs IH Ha]; constructor; [exact IH |].
  rewrite List.Forall_forall in *. intros x Hx.
  apply key_compare_Lt. exact (Ha x Hx).
Qed.

Lemma average_df_keys (df : DataFrame) :
  map fst (average_df df) = group_keys df.
Proof.
  unfold average_df, groupby. rewrite !map_map. cbn [fst]. apply map_id.
Qed.

Lemma failed_routes_count_keys (df : DataFrame) :
  map fst (failed_routes_count df) = group_keys df.
Proof.
  unfold failed_routes_count, groupby. rewrite !map_map. cbn [fst]. apply map_id.
Qed.

(** The table of averages and the table of failure counts list their cells
    in strictly ascending order of (cost_constraint_ratio, chain_strength). *)
Theorem grouped_tables_ascending (df : DataFrame) :
  StronglySorted key_lt (map fst (average_df df))
  /\ StronglySorted key_lt (map fst (failed_routes_count (failed_routes df))).
Proof.
  rewrite average_df_keys, failed_routes_count_keys.
  split; apply sorted_key_lt, group_keys_sorted.
Qed.

(** How many keys of the list have the row in their cell. *)
Lemma keys_of_row_once (ks : list Key) (x : nat * Row) :
  StronglySorted (cmp_lt key_compare) ks ->
  (exists k, In k ks /\ in_cell k x = true) ->
  list_sum (map (fun k => if in_cell k x then 1%nat else 0%nat) ks) = 1%nat.
Proof.
  induction 1 as [| k ks Hs IH Hk]; intros (k0 & Hin & Hc); [destruct Hin |].
  cbn [map list_sum]. destruct (in_cell k x) eqn:E.
  - f_equal. clear IH.
    rewrite List.Forall_forall in Hk.
    assert (Hnone : forall k', In k' ks -> in_cell k' x = false).
    { intros k' Hk'. apply not_true_is_false. intros E'.
      apply in_cell_true in E, E'. specialize (Hk k' Hk'). unfold cmp_lt in Hk.
      assert (E1 : key_compare k (key_of x) = Eq)
        by (rewrite key_compare_antisym, E; reflexivity).
      rewrite (key_compare_eq_compat _ _ _ E1), E' in Hk. discriminate Hk. }
    clear - Hnone. induction ks as [| k' ks IH]; [reflexivity |].
    cbn [map list_sum]. rewrite (Hnone k') by now left.
    apply IH. intros; apply Hnone; now right.
  - apply IH. destruct Hin as [<- | Hin]; [congruence |]. eauto.
Qed.

Lemma list_sum_map_add {A} (f g : A -> nat) (l : list A) :
  list_sum (map (fun a => (f a + g a)%nat) l)
  = (list_sum (map f l) + list_sum (map g l))%nat.
Proof. induction l as [| a l IH]; simpl; [reflexivity | lia]. Qed.

(** The groups of a [groupby] share out the rows of the table. *)
Lemma groupby_partition (ks : list Key) (df : DataFrame) :
  StronglySorted (cmp_lt key_compare) ks ->
  (forall x, In x df -> exists k, In k ks /\ in_cell k x = true) ->
  list_sum (map (fun k => length (cell_rows df k)) ks) = length df.
Proof.
  intros Hs. induction df as [| x df IH]; intros Hcover.
  - cbn [cell_rows List.filter length]. clear. induction ks; simpl; auto.
  - rewrite (map_ext (fun k => length (cell_rows (x :: df) k))
               (fun k => ((if in_cell k x then 1 else 0)
                          + length (cell_rows df k))%nat)).
    + rewrite list_sum_map_add, IH by (intros; apply Hcover; now right).
      rewrite keys_of_row_once; [reflexivity | exact Hs |].
      apply Hcover. now left.
    + intros k. unfold cell_rows. cbn [List.filter].
      now destruct (in_cell k x).
Qed.

(** The counts of the failure table add up to the number of records whose
    relative_cost is -1: every failed trial is counted once. *)
Theorem failure_counts_total (df : DataFrame) :
  list_sum (map snd (failed_routes_count (failed_routes df)))
  = length (List.filter is_failure df).
Proof.
  unfold failed_routes_count, groupby. rewrite !map_map. cbn [snd].
  rewrite (map_ext _ (fun k => length (cell_rows (failed_routes df) k)))
    by (intros; now rewrite get_group_cell_rows).
  apply groupby_partition.
  - apply group_keys_sorted.
  - apply group_keys_cover.
Qed.






(** The table of [best] has one row for each row of the table of averages,
    in the same order and for the same cell, and its labels are 0, 1, 2, ...:
    the two heatmaps (and contour plots) have the same cells. *)
Theorem best_rows_match_average (df best : DataFrame)
    (Hlabels : List.NoDup (map fst df))
    (Hrun : best_df df = inr best) :
  length best = length (average_df df)
  /\ map fst best = seq 0 (length best)
  /\ forall (i : nat) (y : nat * Row) (k : Key) (m : Q),
       nth_error best i = Some y ->
       nth_error (average_df df) i = Some (k, m) ->
       in_cell k y = true.
Proof.
  destruct (best_df_rows df Hlabels) as (ys & Hrun' & Hys).
  rewrite Hrun in Hrun'. injection Hrun' as ->.
  split; [| split].
  - unfold reset_index, read_csv.
    rewrite length_combine, length_seq, Nat.min_id, length_map.
    rewrite <- (length_map fst (average_df df)), average_df_keys.
    symmetry. eapply Forall2_length; eassumption.
  - unfold reset_index. rewrite read_csv_labels.
    unfold read_csv. now rewrite length_combine, length_seq, Nat.min_id.
  - intros i y k m Hy Hk.
    destruct (best_row_at df ys i y Hys Hy) as (y0 & k' & -> & _ & Hk' & Hb).
    assert (E : nth_error (map fst (average_df df)) i = Some k)
      by (rewrite nth_error_map, Hk; reflexivity).
    rewrite average_df_keys, Hk' in E. injection E as ->.
    apply Hb.
Qed.

Lemma best_rows_match_average_witness :
  length [(0%nat, row 0.5 1 1 2 [2; 1]%Z)]
  = length (average_df (successes (read_csv trials_5_2_8))).
Proof.
  apply (best_rows_match_average (successes (read_csv trials_5_2_8))
           [(0%nat, row 0.5 1 1 2 [2; 1]%Z)]).
  - vm_compute. repeat (constructor; [simpl; intuition lia |]). constructor.
  - reflexivity.
Defined.

End AggregatorExtras.

(** * Properties of the driver *)
Section DriverExtras.
Import graph_storer post_processing.
Local Open Scope Q_scope.

Lemma known_dec (locations : list route_storer.Order) (id : Z) :
  {known locations id} + {~ known locations id}.
Proof. unfold known. apply in_dec, Z.eq_dec. Qed.

Lemma create_graph_renderable {N} (locations : list route_storer.Order)
    (stops : list Z) (folder_name : string) (file_name : N) :
  renderable locations stops ->
  exists fig : route_storer.Figure N,
    route_storer.create_graph locations stops folder_name file_name = inr fig
    /\ route_storer.fig_folder fig = folder_name
    /\ route_storer.fig_name fig = file_name
    /\ length (route_storer.arrows fig) = (length stops - 1)%nat.
Proof.
  intros H. rewrite create_graph_unfold.
  assert (Hrun : exists drawn,
             route_storer.__add_lines [stops] (orders_of locations) = inr drawn
             /\ length drawn = (length stops - 1)%nat).
  { destruct (List.Forall_Exists_dec (known locations) (known_dec locations) stops)
      as [Hall | Hex].
    - destruct (add_lines_known (orders_of locations) stops) as (ps & Hps & Hrun).
      { apply known_all_is_Some. now apply List.Forall_forall. }
      exists (map arrow_of ps). split; [exact Hrun |].
      rewrite length_map, <- edges_length. symmetry.
      eapply Forall2_length; eassumption.
    - destruct H as [Hlen | Hall].
      + destruct stops as [| a [| b rest]]; simpl in Hlen; try lia;
          exists []; split; reflexivity.
      + exfalso. apply List.Exists_exists in Hex.
        destruct Hex as (id & Hin & Hid). exact (Hid (Hall id Hin)). }
  destruct Hrun as (drawn & Hrun & Hlen). rewrite Hrun.
  eexists. split; [reflexivity |]. cbn. auto.
Qed.

Lemma create_graph_not_renderable {N} (locations : list route_storer.Order)
    (stops : list Z) (folder_name : string) (file_name : N) :
  ~ renderable locations stops ->
  exists k : Z,
    In k stops /\ ~ known locations k
    /\ route_storer.create_graph locations stops folder_name file_name
       = inl (KeyError k).
Proof.
  intros H. unfold renderable in H.
  assert (Hlen : (2 <= length stops)%nat) by lia.
  assert (Hex : Exists (fun k => orders_of locations !! k = None) stops).
  { destruct (List.Forall_Exists_dec (known locations) (known_dec locations) stops)
      as [Hall | Hex].
    - exfalso. apply H. right. now apply List.Forall_forall.
    - apply List.Exists_exists in Hex. destruct Hex as (id & Hin & Hid).
      apply List.Exists_exists. exists id. split; [exact Hin |].
      apply eq_None_not_Some. now rewrite orders_of_is_Some. }
  destruct (add_lines_unknown _ stops Hlen Hex) as (k & Hk & Hnone & Hrun).
  exists k. split; [exact Hk |]. split.
  - rewrite <- orders_of_is_Some, Hnone. intros [x Hx]. discriminate Hx.
  - rewrite create_graph_unfold, Hrun. reflexivity.
Qed.

Lemma renderable_dec (locations : list route_storer.Order) (stops : list Z) :
  {renderable locations stops} + {~ renderable locations stops}.
Proof.
  unfold renderable.
  destruct (lt_dec (length stops) 2) as [H | H]; [left; now left |].
  destruct (List.Forall_Exists_dec (known locations) (known_dec locations) stops)
    as [Hall | Hex].
  - left. right. now apply List.Forall_forall.
  - right. intros [H' | H']; [lia |].
    apply List.Exists_exists in Hex. destruct Hex as (id & Hin & Hid).
    exact (Hid (H' id Hin)).
Qed.

Lemma visualise_deliveries_cons (x : nat * Row) (df : DataFrame)
    (locations : list route_storer.Order) :
  visualise_deliveries (x :: df) locations
  = io_bind
      (writes (bind (route_storer.create_graph locations (route (snd x))
                       "routes"
                       (cost_constraint_ratio (snd x), chain_strength (snd x),
                        trial (snd x), relative_cost (snd x)))
                    (fun f => ret (RouteFile f))))
      (fun _ => visualise_deliveries df locations).
Proof. destruct x as [label rw]. reflexivity. Qed.

Lemma visualise_deliveries_all (df : DataFrame)
    (locations : list route_storer.Order) :
  (forall x, In x df -> renderable locations (route (snd x))) ->
  snd (visualise_deliveries df locations) = inr tt
  /\ Forall2 route_image_of df (fst (visualise_deliveries df locations)).
Proof.
  intros Hall.
  induction df as [| x df IH]; [split; [reflexivity | constructor] |].
  rewrite visualise_deliveries_cons.
  destruct (create_graph_renderable locations (route (snd x)) "routes"
              (cost_constraint_ratio (snd x), chain_strength (snd x),
               trial (snd x), relative_cost (snd x)) (Hall x (or_introl eq_refl)))
    as (fig & Hrun & Hfolder & Hname & Hlen).
  rewrite Hrun. cbn [bind ret raise writes io_bind].
  destruct IH as [IH1 IH2]; [intros; apply Hall; now right |].
  destruct (visualise_deliveries df locations) as [w res].
  cbn [fst snd app] in *. split; [exact IH1 |].
  constructor; [| exact IH2].
  exists fig. auto.
Qed.

(** When the route of every row can be rendered, [visualise_deliveries]
    writes one image per row of the table, in the order of the rows, failed
    trials included: in the folder "routes", named by the four fields of the
    row, with one arrow less than the route has stops; it raises nothing. *)
Theorem visualise_deliveries_one_per_row (df : DataFrame)
    (locations : list route_storer.Order)
    (Hall : forall x, In x df -> renderable locations (route (snd x))) :
  snd (visualise_deliveries df locations) = inr tt
  /\ Forall2 route_image_of df (fst (visualise_deliveries df locations)).
Proof. exact (visualise_deliveries_all df locations Hall). Qed.

Lemma visualise_deliveries_one_per_row_witness :
  snd (visualise_deliveries (read_csv two_cells) two_locations) = inr tt
  /\ Forall2 route_image_of (read_csv two_cells)
       (fst (visualise_deliveries (read_csv two_cells) two_locations)).
Proof.
  apply (visualise_deliveries_one_per_row (read_csv two_cells) two_locations).
  simpl. intros x [<- | [<- | [<- | []]]]; simpl.
  - right. exact two_locations_known.
  - right. intros id [<- | [<- | []]]; apply two_locations_known; simpl; tauto.
  - left. simpl. lia.
Defined.

(** [visualise_deliveries] stops at the first row whose route cannot be
    rendered: the images of the rows before it have been written, it raises
    [KeyError] on a stop of that route that is not among the locations, and
    no image of a later row is written. *)
Theorem visualise_deliveries_stops (pre post : DataFrame) (x : nat * Row)
    (locations : list route_storer.Order)
    (Hpre : forall x', In x' pre -> renderable locations (route (snd x')))
    (Hx : ~ renderable locations (route (snd x))) :
  exists k : Z,
    In k (route (snd x)) /\ ~ known locations k
    /\ snd (visualise_deliveries (pre ++ x :: post) locations)
       = inl (KeyError k)
    /\ Forall2 route_image_of pre
         (fst (visualise_deliveries (pre ++ x :: post) locations)).
Proof.
  destruct (create_graph_not_renderable locations (route (snd x)) "routes"
              (cost_constraint_ratio (snd x), chain_strength (snd x),
               trial (snd x), relative_cost (snd x)) Hx)
    as (k & Hk & Hunknown & Hrun).
  exists k. split; [exact Hk |]. split; [exact Hunknown |].
  induction pre as [| x' pre IH].
  - cbn [app]. rewrite visualise_deliveries_cons, Hrun.
    split; [reflexivity | constructor].
  - cbn [app]. rewrite visualise_deliveries_cons.
    destruct (create_graph_renderable locations (route (snd x')) "routes"
                (cost_constraint_ratio (snd x'), chain_strength (snd x'),
                 trial (snd x'), relative_cost (snd x'))
                (Hpre x' (or_introl eq_refl)))
      as (fig & Hrun' & Hfolder & Hname & Hlen).
    rewrite Hrun'. cbn [bind ret raise writes io_bind].
    destruct IH as [IH1 IH2]; [intros; apply Hpre; now right |].
    destruct (visualise_deliveries (pre ++ x :: post) locations) as [w res].
    cbn [fst snd app] in *. split; [exact IH1 |].
    constructor; [| exact IH2].
    exists fig. auto.
Qed.

Lemma visualise_deliveries_stops_witness :
  exists k : Z,
    In k [1%Z; 5%Z] /\ ~ known two_locations k
    /\ snd (visualise_deliveries
              ([(0%nat, row 0.5 1 0 10 [1; 2]%Z)]
               ++ (1%nat, row 0.5 1 1 (-1) [1; 5]%Z)
               :: [(2%nat, row 0.5 1 2 20 [2; 1]%Z)]) two_locations)
       = inl (KeyError k)
    /\ Forall2 route_image_of [(0%nat, row 0.5 1 0 10 [1; 2]%Z)]
         (fst (visualise_deliveries
                 ([(0%nat, row 0.5 1 0 10 [1; 2]%Z)]
                  ++ (1%nat, row 0.5 1 1 (-1) [1; 5]%Z)
                  :: [(2%nat, row 0.5 1 2 20 [2; 1]%Z)]) two_locations)).
Proof.
  apply (visualise_deliveries_stops
           [(0%nat, row 0.5 1 0 10 [1; 2]%Z)]
           [(2%nat, row 0.5 1 2 20 [2; 1]%Z)]
           (1%nat, row 0.5 1 1 (-1) [1; 5]%Z) two_locations).
  - simpl. intros x' [<- | []]. right. exact two_locations_known.
  - simpl. intros [H | H]; [simpl in H; lia |].
    specialize (H 5%Z ltac:(simpl; tauto)). unfold known in H. simpl in H.
    destruct H as [H | [H | []]]; discriminate H.
Defined.

Lemma two_plots_run (t : Long Q) (file_parts : string * string) :
  has_duplicate_entries t = false ->
  exists g : Grid Q,
    g_index g = sort_unique Qcompare (index_values t)
    /\ g_columns g = sort_unique Qcompare (column_values t)
    /\ two_plots t file_parts
       = if (length (g_index g) <? 2)%nat || (length (g_columns g) <? 2)%nat
         then ([PlotFile
                  (Heatmap (data_path
                              (String.append (fst file_parts)
                                 (String.append "_heatmap_" (snd file_parts))))
                           g)],
               inl (TypeError_contour_shape (length (g_index g))
                                            (length (g_columns g))))
         else ([PlotFile
                  (Heatmap (data_path
                              (String.append (fst file_parts)
                                 (String.append "_heatmap_" (snd file_parts))))
                           g);
                PlotFile
                  (Contour (data_path
                              (String.append (fst file_parts)
                                 (String.append "_contours_" (snd file_parts))))
                           g)],
               inr tt).
Proof.
  intros H.
  unfold two_plots, plot, save_heatmap, save_contour_plot, pivot, contourf.
  rewrite H. cbn [bind ret raise writes io_bind g_index g_columns].
  exists {| g_index := sort_unique Qcompare (index_values t);
            g_columns := sort_unique Qcompare (column_values t);
            g_values :=
              map (fun i => map (fun c => cell t i c)
                              (sort_unique Qcompare (column_values t)))
                  (sort_unique Qcompare (index_values t)) |}.
  split; [reflexivity |]. split; [reflexivity |].
  cbn [g_index g_columns]. unfold index_values, column_values.
  destruct ((length (sort_unique Qcompare (map (fun x => fst (fst x)) t)) <? 2)%nat
            || (length (sort_unique Qcompare (map (fun x => snd (fst x)) t)) <? 2)%nat);
    reflexivity.
Qed.

Lemma two_plots_end (t : Long Q) (file_parts : string * string)
    (locations : list route_storer.Order) (rows : list Row) :
  has_duplicate_entries t = false ->
  match snd (two_plots t file_parts) with
  | inr _ => True
  | inl e => driver_exception locations rows e
  end.
Proof.
  intros H. destruct (two_plots_run t file_parts H) as (g & _ & _ & ->).
  destruct (Nat.ltb_spec (length (g_index g)) 2);
    destruct (Nat.ltb_spec (length (g_columns g)) 2);
    cbn [orb snd driver_exception]; auto.
Qed.

Lemma two_plots_full (t : Long Q) (file_parts : string * string) :
  has_duplicate_entries t = false ->
  two_values (index_values t) -> two_values (column_values t) ->
  snd (two_plots t file_parts) = inr tt
  /\ map written_to (fst (two_plots t file_parts))
     = [ data_path (String.append (fst file_parts)
                     (String.append "_heatmap_" (snd file_parts)));
         data_path (String.append (fst file_parts)
                     (String.append "_contours_" (snd file_parts))) ].
Proof.
  intros H Hi Hc. destruct (two_plots_run t file_parts H) as (g & Ei & Ec & ->).
  apply sort_unique_two in Hi, Hc. rewrite <- Ei in Hi. rewrite <- Ec in Hc.
  destruct (Nat.ltb_spec (length (g_index g)) 2); [lia |].
  destruct (Nat.ltb_spec (length (g_columns g)) 2); [lia |].
  split; reflexivity.
Qed.

Lemma average_no_duplicates (df : DataFrame) :
  has_duplicate_entries (long_of (fun m => m) (average_df df)) = false.
Proof.
  apply long_of_no_duplicates. rewrite average_df_keys.
  apply group_keys_sorted.
Qed.

Lemma long_of_frame_nth_error (df : DataFrame) (n : nat) (x : Q * Q * Q) :
  nth_error (long_of_frame df) n = Some x ->
  exists y, nth_error df n = Some y
            /\ x = (cost_constraint_ratio (snd y), chain_strength (snd y),
                    relative_cost (snd y)).
Proof.
  unfold long_of_frame. rewrite nth_error_map.
  destruct (nth_error df n) as [y |]; [| discriminate].
  intros H. injection H as <-. eauto.
Qed.

Lemma best_no_duplicates (df ys : DataFrame) :
  Forall2 (best_of df) (group_keys df) ys ->
  has_duplicate_entries (long_of_frame (reset_index ys)) = false.
Proof.
  intros Hys. apply not_true_is_false. intros H.
  apply has_duplicate_entries_true in H.
  destruct H as (n & m & x & y & Hlt & Hn & Hm & H1 & H2).
  apply long_of_frame_nth_error in Hn, Hm.
  destruct Hn as (yn & Hn & ->), Hm as (ym & Hm & ->). cbn [fst snd] in H1, H2.
  destruct (best_row_at df ys n yn Hys Hn) as (y0 & k & -> & _ & Hk & Hb).
  destruct (best_row_at df ys m ym Hys Hm) as (y0' & k' & -> & _ & Hk' & Hb').
  cbn [snd] in H1, H2.
  destruct Hb as (_ & Hc & _), Hb' as (_ & Hc' & _).
  assert (E : key_compare (key_of y0') (key_of y0) = Eq).
  { apply key_compare_Eq. unfold key_of. cbn [fst snd].
    split; symmetry; assumption. }
  assert (Hc2 : in_cell k y0' = true).
  { apply in_cell_true. rewrite (key_compare_eq_compat _ _ _ E).
    now apply in_cell_true. }
  assert (k = k').
  { apply (group_keys_unique df k k' y0'); try assumption.
    - eapply nth_error_In; eassumption.
    - eapply nth_error_In; eassumption. }
  subst k'.
  assert (n = m); [| lia].
  eapply (sorted_eq_same_index key_compare key_compare_antisym).
  - apply group_keys_sorted.
  - exact Hk.
  - exact Hk'.
  - apply key_compare_refl.
Qed.

Lemma best_unfold (df ys : DataFrame) (output_file : string) :
  best_df df = inr (reset_index ys) ->
  best df output_file
  = two_plots (long_of_frame (reset_index ys)) ("best"%string, output_file).
Proof. intros H. unfold best. now rewrite H. Qed.

Lemma failed_occurences_run (df : DataFrame) (output_file : string) :
  snd (failed_occurences df output_file) = inr tt
  /\ map written_to (fst (failed_occurences df output_file))
     = match failed_routes df with
       | [] => []
       | _ => [data_path (String.append "fails"
                            (String.append "_heatmap_" output_file))]
       end.
Proof.
  unfold failed_occurences.
  destruct (failed_routes df) as [| x rest] eqn:E; [split; reflexivity |].
  rewrite <- E.
  assert (Hnd : has_duplicate_entries
                  (long_of (fun n => inject_Z (Z.of_nat n))
                           (failed_routes_count (failed_routes df)))
                = false).
  { apply long_of_no_duplicates. rewrite failed_routes_count_keys.
    apply group_keys_sorted. }
  unfold plot, save_heatmap, pivot. rewrite Hnd.
  split; reflexivity.
Qed.

Lemma snd_io_bind {A B} (m : IO A) (f : A -> IO B) :
  snd (io_bind m f)
  = match snd m with
    | inl e => inl e
    | inr a => snd (f a)
    end.
Proof.
  destruct m as [w [e | a]]; [reflexivity |].
  cbn [io_bind snd]. now destruct (f a).
Qed.

Lemma fst_io_bind {A B} (m : IO A) (f : A -> IO B) (a : A) :
  snd m = inr a -> fst (io_bind m f) = fst m ++ fst (f a).
Proof.
  destruct m as [w [e | a']]; cbn [snd]; intros H; [discriminate H |].
  injection H as ->. cbn [io_bind fst]. now destruct (f a).
Qed.

Lemma visualise_deliveries_end (df : DataFrame)
    (locations : list route_storer.Order) (rows : list Row) :
  (forall x, In x df -> In (snd x) rows) ->
  match snd (visualise_deliveries df locations) with
  | inr _ => True
  | inl e => driver_exception locations rows e
  end.
Proof.
  induction df as [| x df IH]; intros Hrows; [exact I |].
  rewrite visualise_deliveries_cons, snd_io_bind.
  destruct (renderable_dec locations (route (snd x))) as [Hr | Hr].
  - destruct (create_graph_renderable locations (route (snd x)) "routes"
                (cost_constraint_ratio (snd x), chain_strength (snd x),
                 trial (snd x), relative_cost (snd x)) Hr) as (fig & -> & _).
    cbn [bind ret raise writes snd]. apply IH. intros; apply Hrows; now right.
  - destruct (create_graph_not_renderable locations (route (snd x)) "routes"
                (cost_constraint_ratio (snd x), chain_strength (snd x),
                 trial (snd x), relative_cost (snd x)) Hr)
      as (k & Hk & Hunknown & ->).
    cbn [bind ret raise writes snd driver_exception].
    split; [exact Hunknown |]. exists (snd x). split; [| exact Hk].
    apply Hrows. now left.
Qed.

(** On a table with a successful trial, whatever the locations, a run of the
    driver ends normally or with one of two exceptions: the TypeError of
    [plt.contourf] on a grid with fewer than two rows or columns, or the
    KeyError of a stop of a route of the table that is not among the
    locations.  It never raises the ValueError of the pivot, nor an exception
    of [idxmin], of [loc] or of a list subscript. *)
Theorem post_process_exceptions (rows : list Row) (output_file : string)
    (locations : list route_storer.Order) (e : exn)
    (Hsome : exists x, In x rows /\ ~ relative_cost x == -1)
    (Hend : snd (post_process rows output_file locations) = inl e) :
  driver_exception locations rows e.
Proof.
  unfold post_process in Hend.
  destruct (best_df_rows (successes (read_csv rows))
              (successes_labels_NoDup rows)) as (ys & Hbest & Hys).
  rewrite (best_unfold _ ys output_file Hbest) in Hend.
  change (average (successes (read_csv rows)) output_file)
    with (two_plots (long_of (fun m => m)
                       (average_df (successes (read_csv rows))))
                    ("avg"%string, output_file)) in Hend.
  pose proof (two_plots_end _ ("avg"%string, output_file) locations rows
                (average_no_duplicates (successes (read_csv rows)))) as Ha.
  pose proof (two_plots_end _ ("best"%string, output_file) locations rows
                (best_no_duplicates _ ys Hys)) as Hb.
  pose proof (failed_occurences_run (read_csv rows) output_file) as [Hf _].
  pose proof (visualise_deliveries_end (read_csv rows) locations rows) as Hv.
  rewrite snd_io_bind in Hend.
  destruct (snd (two_plots (long_of (fun m => m) _) _)) as [e1 | []];
    [injection Hend as <-; exact Ha |].
  rewrite snd_io_bind in Hend.
  destruct (snd (two_plots (long_of_frame _) _)) as [e2 | []];
    [injection Hend as <-; exact Hb |].
  rewrite snd_io_bind, Hf in Hend.
  destruct (snd (visualise_deliveries (read_csv rows) locations)) as [e3 | []];
    [| discriminate Hend].
  injection Hend as <-. apply Hv.
  intros x Hx. apply read_csv_In. exists (fst x).
  now rewrite <- surjective_pairing.
Qed.

Lemma post_process_exceptions_witness :
  driver_exception two_locations two_cells (TypeError_contour_shape 1 1).
Proof.
  apply (post_process_exceptions two_cells "out" two_locations).
  - exists (row 0.5 1 0 10 [1; 2]%Z). split; [simpl; tauto |].
    simpl. unfold Qeq. simpl. lia.
  - reflexivity.
Defined.

Lemma in_cell_fields (k : Key) (x : nat * Row) :
  in_cell k x = true ->
  cost_constraint_ratio (snd x) == fst k /\ chain_strength (snd x) == snd k.
Proof. unfold in_cell. now rewrite andb_true_iff, !Qeq_bool_iff. Qed.

Lemma successes_In (rows : list Row) (a : Row) :
  In a rows -> ~ relative_cost a == -1 ->
  exists label, In (label, a) (successes (read_csv rows)).
Proof.
  intros Ha Hs. apply read_csv_In in Ha. destruct Ha as (label & Hl).
  exists label. apply filter_In. split; [exact Hl |].
  unfold is_failure, cost. cbn [snd].
  destruct (Qeq_bool (relative_cost a) (-1)) eqn:E; [| reflexivity].
  apply Qeq_bool_iff in E. contradiction.
Qed.

(** Two successful trials that differ in a field lie in the cells of two keys
    of the [groupby] that differ in that field. *)
Lemma successes_differ_keys (f : Row -> Q) (g : Key -> Q) (rows : list Row) :
  (forall k x, in_cell k x = true -> f (snd x) == g k) ->
  successes_differ f rows ->
  exists ka kb : Key,
    In ka (group_keys (successes (read_csv rows)))
    /\ In kb (group_keys (successes (read_csv rows)))
    /\ ~ g ka == g kb.
Proof.
  intros Hfg (a & b & Ha & Hb & Hsa & Hsb & Hne).
  destruct (successes_In rows a Ha Hsa) as (la & Hla).
  destruct (successes_In rows b Hb Hsb) as (lb & Hlb).
  destruct (group_keys_cover _ _ Hla) as (ka & Hka & Ea).
  destruct (group_keys_cover _ _ Hlb) as (kb & Hkb & Eb).
  exists ka, kb. split; [exact Hka |]. split; [exact Hkb |].
  intros E. apply Hne.
  rewrite (Hfg ka (la, a) Ea : f a == g ka).
  rewrite (Hfg kb (lb, b) Eb : f b == g kb). exact E.
Qed.

Lemma average_two_values (g : Key -> Q) (rows : list Row) (ka kb : Key) :
  In ka (group_keys (successes (read_csv rows))) ->
  In kb (group_keys (successes (read_csv rows))) ->
  ~ g ka == g kb ->
  two_values (map g (map fst (average_df (successes (read_csv rows))))).
Proof.
  intros Ha Hb Hne. rewrite average_df_keys.
  exists (g ka), (g kb). split; [now apply in_map |].
  split; [now apply in_map | exact Hne].
Qed.

Lemma best_two_values (f : Row -> Q) (g : Key -> Q) (df ys : DataFrame)
    (ka kb : Key) :
  (forall k x, in_cell k x = true -> f (snd x) == g k) ->
  Forall2 (best_of df) (group_keys df) ys ->
  In ka (group_keys df) -> In kb (group_keys df) -> ~ g ka == g kb ->
  two_values (map (fun x => f (snd x)) (reset_index ys)).
Proof.
  intros Hfg Hys Ha Hb Hne.
  assert (Hrow : forall k, In k (group_keys df) ->
             exists y, In y (reset_index ys) /\ f (snd y) == g k).
  { intros k Hk. apply In_nth_error in Hk. destruct Hk as (i & Hi).
    rewrite <- lookup_nth_error in Hi.
    destruct (Forall2_lookup_l _ _ _ _ _ Hys Hi) as (y0 & Hy0 & Hbest).
    rewrite lookup_nth_error in Hy0.
    exists (i, snd y0). split.
    - apply (nth_error_In _ i). rewrite reset_index_nth_error, Hy0. reflexivity.
    - apply (Hfg k y0). apply Hbest. }
  destruct (Hrow ka Ha) as (ya & Hya & Ea).
  destruct (Hrow kb Hb) as (yb & Hyb & Eb).
  exists (f (snd ya)), (f (snd yb)).
  split; [now apply (in_map (fun x => f (snd x))) |].
  split; [now apply (in_map (fun x => f (snd x))) |].
  now rewrite Ea, Eb.
Qed.

Lemma failed_routes_none (rows : list Row) (A : Type) (p : list A) :
  match failed_routes (read_csv rows) with
  | [] => []
  | _ => p
  end
  = if existsb (fun x => Qeq_bool (relative_cost x) (-1)) rows then p else [].
Proof.
  unfold read_csv, failed_routes. generalize 0%nat.
  induction rows as [| a rows IH]; intros s; [reflexivity |].
  cbn [length seq combine List.filter existsb].
  unfold is_failure at 1, cost. cbn [snd].
  destruct (Qeq_bool (relative_cost a) (-1)); [reflexivity |].
  cbn [orb]. apply IH.
Qed.

(** A full run.  When the successful trials have two different values of
    cost_constraint_ratio and two different values of chain_strength, and the
    route of every row can be rendered, the driver ends normally and has
    written, in this order: the heatmap and the contour plot of the averages,
    the heatmap and the contour plot of the best costs, the heatmap of the
    failures if some trial failed, and one route image per row of the
    table. *)
Theorem post_process_full_run (rows : list Row) (output_file : string)
    (locations : list route_storer.Order)
    (Hratio : successes_differ cost_constraint_ratio rows)
    (Hstrength : successes_differ chain_strength rows)
    (Hroutes : forall x, In x rows -> renderable locations (route x)) :
  snd (post_process rows output_file locations) = inr tt
  /\ exists plots images : list File,
       fst (post_process rows output_file locations) = plots ++ images
       /\ map written_to plots
          = plot_paths output_file
              (existsb (fun x => Qeq_bool (relative_cost x) (-1)) rows)
       /\ Forall2 route_image_of (read_csv rows) images.
Proof.
  destruct (successes_differ_keys cost_constraint_ratio fst rows
              (fun k x H => proj1 (in_cell_fields k x H)) Hratio)
    as (ka & kb & Hka & Hkb & Hab).
  destruct (successes_differ_keys chain_strength snd rows
              (fun k x H => proj2 (in_cell_fields k x H)) Hstrength)
    as (kc & kd & Hkc & Hkd & Hcd).
  destruct (best_df_rows (successes (read_csv rows))
              (successes_labels_NoDup rows)) as (ys & Hbest & Hys).
  destruct (two_plots_full
              (long_of (fun m => m) (average_df (successes (read_csv rows))))
              ("avg"%string, output_file)) as [Ha1 Ha2].
  { apply average_no_duplicates. }
  { unfold index_values, long_of. rewrite map_map. cbn [fst].
    rewrite <- (map_map fst fst). now apply average_two_values with ka kb. }
  { unfold column_values, long_of. rewrite map_map. cbn [fst snd].
    rewrite <- (map_map fst snd). now apply average_two_values with kc kd. }
  destruct (two_plots_full (long_of_frame (reset_index ys))
              ("best"%string, output_file)) as [Hb1 Hb2].
  { now apply best_no_duplicates with (df := successes (read_csv rows)). }
  { unfold index_values, long_of_frame. rewrite map_map. cbn [fst].
    apply (best_two_values cost_constraint_ratio fst
             (successes (read_csv rows)) ys ka kb); auto.
    intros k x H. apply (in_cell_fields k x H). }
  { unfold column_values, long_of_frame. rewrite map_map. cbn [fst snd].
    apply (best_two_values chain_strength snd
             (successes (read_csv rows)) ys kc kd); auto.
    intros k x H. apply (in_cell_fields k x H). }
  destruct (failed_occurences_run (read_csv rows) output_file) as [Hf1 Hf2].
  destruct (visualise_deliveries_all (read_csv rows) locations) as [Hv1 Hv2].
  { intros x Hx. apply Hroutes. apply read_csv_In. exists (fst x).
    now rewrite <- surjective_pairing. }
  unfold post_process.
  rewrite (best_unfold _ ys output_file Hbest).
  change (average (successes (read_csv rows)) output_file)
    with (two_plots (long_of (fun m => m)
                       (average_df (successes (read_csv rows))))
                    ("avg"%string, output_file)).
  split.
  - rewrite snd_io_bind, Ha1, snd_io_bind, Hb1, snd_io_bind, Hf1. exact Hv1.
  - rewrite (fst_io_bind _ _ tt Ha1), (fst_io_bind _ _ tt Hb1),
            (fst_io_bind _ _ tt Hf1).
    set (A := fst (two_plots (long_of (fun m => m) _) _)) in *.
    set (B := fst (two_plots (long_of_frame _) _)) in *.
    set (F := fst (failed_occurences _ _)) in *.
    set (V := fst (visualise_deliveries _ _)) in *.
    exists (A ++ B ++ F), V. split; [| split; [| exact Hv2]].
    + rewrite <- !app_assoc. reflexivity.
    + rewrite !map_app, Ha2, Hb2, Hf2, failed_routes_none. reflexivity.
Qed.

Lemma post_process_full_run_witness :
  snd (post_process two_by_two "out" two_locations) = inr tt
  /\ exists plots images : list File,
       fst (post_process two_by_two "out" two_locations) = plots ++ images
       /\ map written_to plots
          = plot_paths "out"
              (existsb (fun x => Qeq_bool (relative_cost x) (-1)) two_by_two)
       /\ Forall2 route_image_of (read_csv two_by_two) images.
Proof.
  apply (post_process_full_run two_by_two "out" two_locations).
  - exists (row 0.5 1 0 10 [1; 2]%Z), (row 1 2 0 7 [1; 2; 1]%Z).
    simpl. repeat split; try tauto; unfold Qeq; simpl; lia.
  - exists (row 0.5 1 0 10 [1; 2]%Z), (row 1 2 0 7 [1; 2; 1]%Z).
    simpl. repeat split; try tauto; unfold Qeq; simpl; lia.
  - simpl. intros x [<- | [<- | [<- | [<- | [<- | []]]]]]; simpl;
      try (left; simpl; lia); right; intros id Hid; apply two_locations_known;
      simpl in *; tauto.
Defined.

End DriverExtras.
